(** * WonderWords: the word lookup, its response validation, the image
      locator and the session history of [main.py]

    The program is a Streamlit script.  Its own logic is small: build a
    prompt, call the language model, strip a Markdown fence from the reply,
    validate the reply against the [WordInfo] schema, probe an image URL,
    and store the record in the session's history dictionary.  The
    development below embeds that logic together with executable models of
    the library calls it is made of:

    - Python text ([str.strip], [str.replace], f-strings) over code points;
    - [re.sub] for the fence pattern, as a small backtracking matcher;
    - [json.loads], after CPython's scanner (the [_json] accelerator);
    - pydantic's [BaseModel.parse_raw] for [WordInfo] (pydantic 2, lax mode);
    - Python's insertion-ordered [dict].

    Around that logic the script checks the API key when it starts, and
    renders the history at the end of every run; a browser session is a
    sequence of runs that share the history.  These are embedded as well.

    The language model and the HTTP client are oracles: functions from the
    request to either a raised exception or a result.  Effects (log records,
    user-interface calls, outbound calls, the history dictionary) are threaded
    through a state, trace and exception monad.  Interpreter resource limits
    (recursion depth, the integer digit limit, memory) and the signals that
    are not subclasses of [Exception] are outside the model. *)

From Stdlib Require Import List NArith ZArith Bool Ascii String Lia.
Import ListNotations.

Local Open Scope string_scope.
Local Open Scope N_scope.
Local Open Scope list_scope.

(* ================================================================== *)
(** * Part I: definitions *)
(* ================================================================== *)

(** ** Python text: sequences of Unicode code points *)

Definition char := N.
Definition str := list char.

(** An ASCII literal as Python text. *)
Definition lit (s : string) : str := map N_of_ascii (list_ascii_of_string s).

Definition DQUOTE : char := 34.      (* the double quote *)
Definition BACKTICK : char := 96.
Definition NEWLINE : char := 10.
Definition SPACE : char := 32.
Definition PLUS : char := 43.
Definition EN_DASH : char := 8211.   (* U+2013 *)

(** A double-quoted ASCII literal inside a larger text. *)
Definition quoted (s : string) : str := DQUOTE :: lit s ++ [DQUOTE].

Fixpoint str_eqb (a b : str) : bool :=
  match a, b with
  | [], [] => true
  | x :: a', y :: b' => (x =? y) && str_eqb a' b'
  | _, _ => false
  end.

(** [Py_UNICODE_ISSPACE]: the code points [str.strip()] removes and the
    regular-expression class [\s] matches on [str] patterns. *)
Definition Py_UNICODE_ISSPACE (c : char) : bool :=
  ((9 <=? c) && (c <=? 13)) || ((28 <=? c) && (c <=? 32))
  || (c =? 133) || (c =? 160) || (c =? 5760)
  || ((8192 <=? c) && (c <=? 8202))
  || (c =? 8232) || (c =? 8233) || (c =? 8239) || (c =? 8287) || (c =? 12288).

(** A text made of white space only (the empty text included). *)
Definition all_space (w : str) : bool := forallb Py_UNICODE_ISSPACE w.

(** [str.lstrip()], [str.rstrip()], [str.strip()] with no argument. *)
Fixpoint lstrip (s : str) : str :=
  match s with
  | [] => []
  | c :: s' => if Py_UNICODE_ISSPACE c then lstrip s' else s
  end.

Fixpoint rstrip (s : str) : str :=
  match s with
  | [] => []
  | c :: s' =>
      match rstrip s' with
      | [] => if Py_UNICODE_ISSPACE c then [] else [c]
      | r => c :: r
      end
  end.

Definition strip (s : str) : str := lstrip (rstrip s).

(** [s.replace(" ", "+")]: every space becomes a plus sign. *)
Definition replace_space_plus (s : str) : str :=
  map (fun c => if c =? SPACE then PLUS else c) s.

(** [s.startswith(p)], returning the rest of [s] after [p]. *)
Fixpoint strip_prefix (p s : str) : option str :=
  match p, s with
  | [], _ => Some s
  | x :: p', y :: s' => if x =? y then strip_prefix p' s' else None
  | _ :: _, [] => None
  end.

(** ** Regular expressions: the fragment the fence pattern uses

    An item is an anchor, a literal or the greedy class repetition [\s*]; a
    pattern is an alternation of sequences of items.  The matcher backtracks
    as [sre] does: alternatives in order, the star from its longest match
    down.  [bol] says whether the current position is the start of the
    subject (for [^], no MULTILINE flag); [$] holds at the end of the subject
    and just before a final newline. *)

Inductive re_item : Type :=
| AtBeginning                 (* ^ *)
| AtEnd                       (* $ *)
| Literal (l : str)
| StarSpace.                  (* \s* *)

Definition re_pattern := list (list re_item).

Definition at_end (s : str) : bool :=
  match s with
  | [] => true
  | [c] => c =? NEWLINE
  | _ => false
  end.

(** The greedy star of [\s*] followed by the continuation [k]: the longest
    run of white space first, then shorter ones. *)
Fixpoint star_space (k : bool -> str -> option str) (bol : bool) (s : str)
  {struct s} : option str :=
  match s with
  | c :: s' =>
      if Py_UNICODE_ISSPACE c then
        match star_space k false s' with
        | Some r => Some r
        | None => k bol s
        end
      else k bol s
  | [] => k bol s
  end.

(** The text left after the sequence matched at the head of [s]. *)
Fixpoint match_seq (items : list re_item) (bol : bool) (s : str) {struct items}
  : option str :=
  match items with
  | [] => Some s
  | AtBeginning :: items' => if bol then match_seq items' bol s else None
  | AtEnd :: items' => if at_end s then match_seq items' bol s else None
  | Literal l :: items' =>
      match strip_prefix l s with
      | Some s' => match_seq items' (bol && Nat.eqb (List.length l) 0) s'
      | None => None
      end
  | StarSpace :: items' => star_space (match_seq items') bol s
  end.

Fixpoint match_alt (p : re_pattern) (bol : bool) (s : str) : option str :=
  match p with
  | [] => None
  | items :: p' =>
      match match_seq items bol s with
      | Some r => Some r
      | None => match_alt p' bol s
      end
  end.

(** [re.sub(p, "", s)]: scan from the left; where the pattern matches, the
    matched text is dropped and the scan resumes after it, elsewhere the
    character is kept.  [skip] counts the characters of the current match
    still to drop.  An empty match replaced by the empty string changes
    nothing. *)
Fixpoint re_sub_scan (p : re_pattern) (bol : bool) (skip : nat) (s : str)
  {struct s} : str :=
  match s with
  | [] => []
  | c :: s' =>
      match skip with
      | S k => re_sub_scan p false k s'
      | O =>
          match match_alt p bol s with
          | Some r =>
              match (List.length s - List.length r)%nat with
              | S k => re_sub_scan p false k s'
              | O => c :: re_sub_scan p false 0 s'
              end
          | None => c :: re_sub_scan p false 0 s'
          end
      end
  end.

Definition re_sub_empty (p : re_pattern) (s : str) : str := re_sub_scan p true 0 s.

(** The pattern of [get_word_details]: a leading json fence with the white
    space after it, or white space and a closing fence at the end. *)
Definition opening : list re_item :=
  [AtBeginning; Literal (lit "```json"); StarSpace].

Definition closing : list re_item :=
  [StarSpace; Literal (lit "```"); AtEnd].

Definition fence_pattern : re_pattern := [opening; closing].

(** What is left of the closing alternative once its star is done. *)
Definition closing_tail (bol : bool) (s : str) : option str :=
  match strip_prefix (lit "```") s with
  | Some t => if at_end t then Some t else None
  | None => None
  end.

(** The cleaning step of [get_word_details]. *)
Definition clean_response (response_text : str) : str :=
  re_sub_empty fence_pattern (strip response_text).

(** ** Python objects and the insertion-ordered [dict]

    The values [json.loads] produces, which are also the values the session
    history holds.  A [dict] is the list of its items in insertion order,
    with one item per key. *)

#[local] Unset Elimination Schemes.
Inductive pyobj : Type :=
| PyNone
| PyBool (b : bool)
| PyInt (z : Z)
| PyFloat (lexeme : str)          (* the literal as written, not rounded *)
| PyStr (s : str)
| PyList (l : list pyobj)
| PyDict (d : list (str * pyobj)).
#[local] Set Elimination Schemes.

Definition dict (V : Type) := list (str * V).

(** [d.get(k)]: the value of key [k], if any. *)
Fixpoint dict_get {V : Type} (k : str) (d : dict V) : option V :=
  match d with
  | [] => None
  | (k', v) :: d' => if str_eqb k k' then Some v else dict_get k d'
  end.

(** [d[k] = v]: the value of an existing key is replaced where it stands, a
    new key is appended. *)
Fixpoint dict_setitem {V : Type} (k : str) (v : V) (d : dict V) : dict V :=
  match d with
  | [] => [(k, v)]
  | (k', v') :: d' =>
      if str_eqb k k' then (k', v) :: d' else (k', v') :: dict_setitem k v d'
  end.

Definition dict_keys {V : Type} (d : dict V) : list str := map fst d.


(** ** [json.loads]

    After CPython's [_json] scanner: [scanstring_unicode],
    [_match_number_unicode], [scan_once_unicode], [_parse_object_unicode],
    [_parse_array_unicode], and [JSONDecoder.decode] around them. *)

Definition BACKSLASH : char := 92.
Definition LBRACE : char := 123.
Definition RBRACE : char := 125.
Definition LBRACKET : char := 91.
Definition RBRACKET : char := 93.
Definition COLON : char := 58.
Definition COMMA : char := 44.
Definition MINUS : char := 45.
Definition DOT : char := 46.
Definition BOM : char := 65279.      (* U+FEFF *)

Definition IS_WHITESPACE (c : char) : bool :=
  (c =? 32) || (c =? 9) || (c =? 10) || (c =? 13).

(** A text made of JSON white space only. *)
Definition json_space (w : str) : bool := forallb IS_WHITESPACE w.

Fixpoint skip_whitespace (s : str) : str :=
  match s with
  | [] => []
  | c :: s' => if IS_WHITESPACE c then skip_whitespace s' else s
  end.

Definition is_digit (c : char) : bool := (48 <=? c) && (c <=? 57).

Definition hex_value (c : char) : option N :=
  if (48 <=? c) && (c <=? 57) then Some (c - 48)
  else if (97 <=? c) && (c <=? 102) then Some (c - 87)
  else if (65 <=? c) && (c <=? 70) then Some (c - 55)
  else None.

Definition hex4 (a b c d : char) : option N :=
  match hex_value a, hex_value b, hex_value c, hex_value d with
  | Some x, Some y, Some z, Some w => Some (((x * 16 + y) * 16 + z) * 16 + w)
  | _, _, _, _ => None
  end.

Definition is_high_surrogate (u : N) : bool := (55296 <=? u) && (u <=? 56319).
Definition is_low_surrogate (u : N) : bool := (56320 <=? u) && (u <=? 57343).
Definition join_surrogates (hi lo : N) : N :=
  65536 + ((hi - 55296) * 1024 + (lo - 56320)).

(** The character a one-letter escape stands for. *)
Definition simple_escape (e : char) : option char :=
  if e =? 34 then Some 34            (* quote *)
  else if e =? 92 then Some 92       (* backslash *)
  else if e =? 47 then Some 47       (* slash *)
  else if e =? 98 then Some 8        (* b *)
  else if e =? 102 then Some 12      (* f *)
  else if e =? 110 then Some 10      (* n *)
  else if e =? 114 then Some 13      (* r *)
  else if e =? 116 then Some 9       (* t *)
  else None.

Definition prepend (x : str) (o : option (str * str)) : option (str * str) :=
  match o with
  | Some (v, r) => Some (x ++ v, r)
  | None => None
  end.

(** A high surrogate escape is held back until the next item shows whether
    a low surrogate escape follows it directly (the two are then one code
    point) or not (it stands alone). *)
Definition flush (pending : option N) (x : str) : str :=
  match pending with
  | Some hi => hi :: x
  | None => x
  end.

(** What a [\uXXXX] escape of value [uni] adds to the string, and the high
    surrogate held back after it. *)
Definition surrogate_step (pending : option N) (uni : N) : str * option N :=
  match pending with
  | Some hi =>
      if is_low_surrogate uni then ([join_surrogates hi uni], None)
      else if is_high_surrogate uni then ([hi], Some uni)
      else ([hi; uni], None)
  | None =>
      if is_high_surrogate uni then ([], Some uni) else ([uni], None)
  end.

(** [scanstring] in strict mode, from just after the opening quote: the
    decoded string and the text after the closing quote. *)
Fixpoint scanstring_from (pending : option N) (s : str) {struct s}
  : option (str * str) :=
  match s with
  | [] => None
  | c :: s1 =>
      if c =? DQUOTE then Some (flush pending [], s1)
      else if c =? BACKSLASH then
        match s1 with
        | [] => None
        | e :: s2 =>
            if e =? 117 then                       (* u *)
              match s2 with
              | h1 :: h2 :: h3 :: h4 :: s3 =>
                  match hex4 h1 h2 h3 h4 with
                  | None => None
                  | Some uni =>
                      let (out, pending') := surrogate_step pending uni in
                      prepend out (scanstring_from pending' s3)
                  end
              | _ => None
              end
            else
              match simple_escape e with
              | None => None
              | Some x => prepend (flush pending [x]) (scanstring_from None s2)
              end
        end
      else if c <=? 31 then None                   (* control character *)
      else prepend (flush pending [c]) (scanstring_from None s1)
  end.

Definition scanstring (s : str) : option (str * str) := scanstring_from None s.

(** The longest run of decimal digits at the head of [s], and the rest. *)
Fixpoint span_digits (s : str) : str * str :=
  match s with
  | c :: s' =>
      if is_digit c then let (ds, r) := span_digits s' in (c :: ds, r)
      else ([], s)
  | [] => ([], [])
  end.

Definition int_of_digits (ds : str) : Z :=
  fold_left (fun acc c => (acc * 10 + Z.of_N (c - 48))%Z) ds 0%Z.

(** [_match_number], stage by stage; each stage yields the characters it
    read and the text after them.  An optional minus sign: *)
Definition number_sign (s : str) : str * str :=
  match s with
  | c :: s' => if c =? MINUS then ([c], s') else ([], s)
  | [] => ([], [])
  end.

(** An integer part: a nonzero digit and the digits after it, or one zero. *)
Definition number_integer (s : str) : option (str * str) :=
  match s with
  | d :: s' =>
      if (49 <=? d) && (d <=? 57) then
        let (ds, r) := span_digits s' in Some (d :: ds, r)
      else if d =? 48 then Some ([d], s')
      else None
  | [] => None
  end.

(** A fraction, read only when the point is followed by a digit. *)
Definition number_fraction (s : str) : str * str :=
  match s with
  | p :: d :: s' =>
      if (p =? DOT) && is_digit d then
        let (ds, r) := span_digits s' in (p :: d :: ds, r)
      else ([], s)
  | _ => ([], s)
  end.

Definition exponent_sign (s : str) : str * str :=
  match s with
  | g :: s' => if (g =? PLUS) || (g =? MINUS) then ([g], s') else ([], s)
  | [] => ([], [])
  end.

(** An exponent: the letter, an optional sign, digits; given up when there
    is no digit. *)
Definition number_exponent (s : str) : str * str :=
  match s with
  | e :: s' =>
      if (e =? 101) || (e =? 69) then
        let (sg, s'') := exponent_sign s' in
        let (ds, r) := span_digits s'' in
        match ds with
        | [] => ([], s)
        | _ :: _ => (e :: sg ++ ds, r)
        end
      else ([], s)
  | [] => ([], [])
  end.

(** The number at the head of [s]: an [int] when it has neither fraction
    nor exponent, a [float] otherwise. *)
Definition match_number (s : str) : option (pyobj * str) :=
  let (sign, s1) := number_sign s in
  match number_integer s1 with
  | None => None
  | Some (ip, r) =>
      let (frac, r1) := number_fraction r in
      let (expo, r2) := number_exponent r1 in
      match frac, expo with
      | [], [] =>
          let n := int_of_digits ip in
          Some (PyInt (match sign with [] => n | _ :: _ => (- n)%Z end), r2)
      | _, _ => Some (PyFloat (sign ++ ip ++ frac ++ expo), r2)
      end
  end.

(** The fixed-spelling constants [scan_once] tries before a number. *)
Definition constants : list (str * pyobj) :=
  [ (lit "null", PyNone);
    (lit "true", PyBool true);
    (lit "false", PyBool false);
    (lit "NaN", PyFloat (lit "NaN"));
    (lit "Infinity", PyFloat (lit "Infinity"));
    (lit "-Infinity", PyFloat (lit "-Infinity")) ].

Fixpoint match_constant (cs : list (str * pyobj)) (s : str) : option (pyobj * str) :=
  match cs with
  | [] => None
  | (name, v) :: cs' =>
      match strip_prefix name s with
      | Some r => Some (v, r)
      | None => match_constant cs' s
      end
  end.

(** What a scanning function yields: a value with the text after it, a
    decoding error, or [Exhausted] when the recursion budget [fuel] ran out
    (which [json_loads] below never lets happen). *)
Inductive scan (A : Type) : Type :=
| Scanned (a : A) (rest : str)
| ScanError
| Exhausted.
Arguments Scanned {A} a rest.
Arguments ScanError {A}.
Arguments Exhausted {A}.

(** [scan_once] at the head of [s]; [parse_object] and [parse_array] are the
    loops of [_parse_object_unicode] and [_parse_array_unicode], entered
    after the opening bracket and the white space behind it when the
    container is not empty.  In the object loop the items are stored with
    [dict_setitem], so a repeated key keeps its last value. *)
Fixpoint scan_once (fuel : nat) (s : str) {struct fuel} : scan pyobj :=
  match fuel with
  | O => Exhausted
  | S f =>
      match s with
      | [] => ScanError
      | c :: s' =>
          if c =? DQUOTE then
            match scanstring s' with
            | Some (v, r) => Scanned (PyStr v) r
            | None => ScanError
            end
          else if c =? LBRACE then
            match skip_whitespace s' with
            | c1 :: s1 =>
                if c1 =? RBRACE then Scanned (PyDict []) s1
                else
                  match parse_object f [] (c1 :: s1) with
                  | Scanned d r => Scanned (PyDict d) r
                  | ScanError => ScanError
                  | Exhausted => Exhausted
                  end
            | [] => ScanError
            end
          else if c =? LBRACKET then
            match skip_whitespace s' with
            | c1 :: s1 =>
                if c1 =? RBRACKET then Scanned (PyList []) s1
                else
                  match parse_array f [] (c1 :: s1) with
                  | Scanned l r => Scanned (PyList l) r
                  | ScanError => ScanError
                  | Exhausted => Exhausted
                  end
            | [] => ScanError
            end
          else
            match match_constant constants s with
            | Some (v, r) => Scanned v r
            | None =>
                match match_number s with
                | Some (v, r) => Scanned v r
                | None => ScanError
                end
            end
      end
  end

with parse_object (fuel : nat) (rval : dict pyobj) (s : str) {struct fuel}
  : scan (dict pyobj) :=
  match fuel with
  | O => Exhausted
  | S f =>
      match s with
      | q :: s1 =>
          if q =? DQUOTE then
            match scanstring s1 with
            | Some (key, s2) =>
                match skip_whitespace s2 with
                | c :: s3 =>
                    if c =? COLON then
                      match scan_once f (skip_whitespace s3) with
                      | Scanned val s4 =>
                          let rval' := dict_setitem key val rval in
                          match skip_whitespace s4 with
                          | d :: s5 =>
                              if d =? RBRACE then Scanned rval' s5
                              else if d =? COMMA then
                                parse_object f rval' (skip_whitespace s5)
                              else ScanError
                          | [] => ScanError
                          end
                      | ScanError => ScanError
                      | Exhausted => Exhausted
                      end
                    else ScanError
                | [] => ScanError
                end
            | None => ScanError
            end
          else ScanError
      | [] => ScanError
      end
  end

with parse_array (fuel : nat) (rval : list pyobj) (s : str) {struct fuel}
  : scan (list pyobj) :=
  match fuel with
  | O => Exhausted
  | S f =>
      match scan_once f s with
      | Scanned val s1 =>
          let rval' := rval ++ [val] in
          match skip_whitespace s1 with
          | d :: s2 =>
              if d =? RBRACKET then Scanned rval' s2
              else if d =? COMMA then parse_array f rval' (skip_whitespace s2)
              else ScanError
          | [] => ScanError
          end
      | ScanError => ScanError
      | Exhausted => Exhausted
      end
  end.

(** [json.loads(s)] for a [str]: no byte-order mark, white space, one value,
    white space, end of text.  [None] is a raised [JSONDecodeError]. *)
Definition json_loads (s : str) : option pyobj :=
  match s with
  | c :: _ => if c =? BOM then None else
      match scan_once (2 * List.length s + 1) (skip_whitespace s) with
      | Scanned v r =>
          match skip_whitespace r with
          | [] => Some v
          | _ :: _ => None
          end
      | _ => None
      end
  | [] => None
  end.

(** ** The [WordInfo] schema and its validation

    [WordInfo] is a pydantic model with five required fields and no other
    constraint.  Validation is that of pydantic 2 in its default
    configuration: a field declared [str] takes a string and nothing else
    that JSON can produce, a field declared [list[str]] takes a list of
    strings, and keys that are not fields are ignored. *)

Record WordInfo : Type := mkWordInfo {
  meaning : str;
  opposites : list str;
  similar_words : list str;
  sentences : list str;
  image_prompt : str
}.

(** One line of a pydantic [ValidationError]: where and what. *)
Inductive error_detail : Type :=
| JsonInvalid                                  (* the text is not JSON *)
| ModelType                                    (* the value is not an object *)
| Missing (field : str)
| StringType (field : str) (index : option nat)
| ListType (field : str).

Definition required_keys : list str :=
  [ lit "meaning"; lit "opposites"; lit "similar_words"; lit "sentences";
    lit "image_prompt" ].

(** A field declared [str]: present and a string. *)
Definition validate_str (field : str) (d : dict pyobj) : list error_detail + str :=
  match dict_get field d with
  | None => inl [Missing field]
  | Some (PyStr s) => inr s
  | Some _ => inl [StringType field None]
  end.

(** The items of a [list[str]] from index [i] on: the strings, and one error
    for each item that is not a string. *)
Fixpoint validate_items (field : str) (i : nat) (l : list pyobj)
  : list error_detail * list str :=
  match l with
  | [] => ([], [])
  | x :: l' =>
      let (errs, vs) := validate_items field (S i) l' in
      match x with
      | PyStr s => (errs, s :: vs)
      | _ => (StringType field (Some i) :: errs, vs)
      end
  end.

(** A field declared [list[str]]: present, a list, of strings. *)
Definition validate_list_str (field : str) (d : dict pyobj)
  : list error_detail + list str :=
  match dict_get field d with
  | None => inl [Missing field]
  | Some (PyList l) =>
      match validate_items field 0 l with
      | ([], vs) => inr vs
      | (errs, _) => inl errs
      end
  | Some _ => inl [ListType field]
  end.

Definition errors_of {A : Type} (r : list error_detail + A) : list error_detail :=
  match r with
  | inl errs => errs
  | inr _ => []
  end.

(** [WordInfo.model_validate(obj)]: every field is validated, the errors of
    all of them are collected, and a record is built only when there is
    none.  Keys that are not fields are not looked at. *)
Definition model_validate (obj : pyobj) : list error_detail + WordInfo :=
  match obj with
  | PyDict d =>
      let m := validate_str (lit "meaning") d in
      let o := validate_list_str (lit "opposites") d in
      let w := validate_list_str (lit "similar_words") d in
      let t := validate_list_str (lit "sentences") d in
      let p := validate_str (lit "image_prompt") d in
      match m, o, w, t, p with
      | inr m', inr o', inr w', inr t', inr p' => inr (mkWordInfo m' o' w' t' p')
      | _, _, _, _, _ =>
          inl (errors_of m ++ errors_of o ++ errors_of w ++ errors_of t ++ errors_of p)
      end
  | _ => inl [ModelType]
  end.

(** The type tests of the schema: a string, a list of strings. *)
Definition is_str (v : pyobj) : bool :=
  match v with
  | PyStr _ => true
  | _ => false
  end.

Definition is_list_of_str (v : pyobj) : bool :=
  match v with
  | PyList l => forallb is_str l
  | _ => false
  end.


(** The declared fields with their types. *)
Definition schema : list (str * (pyobj -> bool)) :=
  [ (lit "meaning", is_str);
    (lit "opposites", is_list_of_str);
    (lit "similar_words", is_list_of_str);
    (lit "sentences", is_list_of_str);
    (lit "image_prompt", is_str) ].

(** The field is present in [d] and passes its type test. *)
Definition field_ok (test : pyobj -> bool) (field : str) (d : dict pyobj) : bool :=
  match dict_get field d with
  | Some v => test v
  | None => false
  end.

Definition well_typed (d : dict pyobj) : bool :=
  forallb (fun ft => field_ok (snd ft) (fst ft) d) schema.

(** The object [d] has the five fields, and their decoded values are those
    of [info]. *)
Definition conforms (d : dict pyobj) (info : WordInfo) : Prop :=
  dict_get (lit "meaning") d = Some (PyStr (meaning info)) /\
  dict_get (lit "opposites") d = Some (PyList (map PyStr (opposites info))) /\
  dict_get (lit "similar_words") d = Some (PyList (map PyStr (similar_words info))) /\
  dict_get (lit "sentences") d = Some (PyList (map PyStr (sentences info))) /\
  dict_get (lit "image_prompt") d = Some (PyStr (image_prompt info)).

(** [WordInfo.parse_raw(text)]: decode, then validate; a decoding error is
    reported as a validation error too. *)
Definition parse_raw (text : str) : list error_detail + WordInfo :=
  match json_loads text with
  | None => inl [JsonInvalid]
  | Some obj => model_validate obj
  end.

(** [info.dict()]. *)
Definition WordInfo_dict (info : WordInfo) : dict pyobj :=
  [ (lit "meaning", PyStr (meaning info));
    (lit "opposites", PyList (map PyStr (opposites info)));
    (lit "similar_words", PyList (map PyStr (similar_words info)));
    (lit "sentences", PyList (map PyStr (sentences info)));
    (lit "image_prompt", PyStr (image_prompt info)) ].

(** ** Exceptions, events and the monad of the script *)

Inductive exn : Type :=
| ValueError (msg : str)
| ValidationError (errors : list error_detail)
| Raised (name : str) (msg : str).    (* any other subclass of Exception *)

Definition is_ValidationError (e : exn) : bool :=
  match e with
  | ValidationError _ => true
  | _ => false
  end.

(** The records written to the log file, by call site. *)
Inductive log_record : Type :=
| RawResponse (word response_text : str)               (* info *)
| CleanedResponse (word response_text : str)           (* info *)
| ValidationFailed (word : str) (e : exn)              (* error *)
| ImageFetchFailed (e : exn)                           (* error *)
| ErrorProcessing (word : str) (e : exn).              (* exception *)

(** The history: normalized word to [info.dict()]. *)
Definition history_t := dict (dict pyobj).

(** What a run does to the outside, in order. *)
Inductive event : Type :=
| ModelCall (prompt : str)                 (* llm.invoke *)
| ImageCall (url : str)                    (* requests.get *)
| Log (r : log_record)
| Warning (msg : str)                      (* st.warning *)
| ErrorBox (msg : str)                     (* st.error *)
| Success (msg : str)                      (* st.success *)
| ShowResult (info : WordInfo)             (* the four tabs *)
| ShowHistory (h : history_t).             (* the history expanders *)

Record outcome (A : Type) : Type := mkOutcome {
  trace : list event;
  history : history_t;
  result : exn + A
}.
Arguments mkOutcome {A} trace history result.
Arguments trace {A} o.
Arguments history {A} o.
Arguments result {A} o.

(** A computation of the script: from the history dictionary to the events
    emitted, the dictionary afterwards, and the value returned or the
    exception raised.  A raised exception keeps the events and the updates
    made before it. *)
Definition M (A : Type) : Type := history_t -> outcome A.

Definition ret {A : Type} (a : A) : M A := fun h => mkOutcome [] h (inr a).

Definition raise {A : Type} (e : exn) : M A := fun h => mkOutcome [] h (inl e).

Definition bind {A B : Type} (m : M A) (k : A -> M B) : M B :=
  fun h =>
    let o := m h in
    match result o with
    | inl e => mkOutcome (trace o) (history o) (inl e)
    | inr a =>
        let o' := k a (history o) in
        mkOutcome (trace o ++ trace o') (history o') (result o')
    end.

Definition emit (ev : event) : M unit := fun h => mkOutcome [ev] h (inr tt).

Definition get_history : M history_t := fun h => mkOutcome [] h (inr h).

Definition set_history (h' : history_t) : M unit := fun _ => mkOutcome [] h' (inr tt).

(** [try: body except C as e: handler e], where [catches] decides
    membership in the class [C]. *)
Definition try_except {A : Type} (body : M A) (catches : exn -> bool)
  (handler : exn -> M A) : M A :=
  fun h =>
    let o := body h in
    match result o with
    | inl e =>
        if catches e then
          let o' := handler e (history o) in
          mkOutcome (trace o ++ trace o') (history o') (result o')
        else o
    | inr _ => o
    end.

(** The result of an oracle call, as a computation. *)
Definition lift {A : Type} (r : exn + A) : M A :=
  match r with
  | inl e => raise e
  | inr a => ret a
  end.

Declare Scope script_scope.
Delimit Scope script_scope with script.
Notation "x <- m ;; k" := (bind m (fun x => k))
  (at level 61, m at next level, right associativity) : script_scope.
Notation "m ;; k" := (bind m (fun _ => k))
  (at level 61, right associativity) : script_scope.

(** ** The script *)

Section Script.

(** [str.lower()]: the Unicode case mapping is a table of the interpreter,
    taken as a parameter. *)
Variable str_lower : str -> str.

(** The language model behind [llm.invoke], from the prompt to the text of
    the reply, and the HTTP client behind [requests.get], from the URL to
    the status code; either may raise. *)
Variable llm_invoke : str -> exn + str.
Variable requests_get : str -> exn + N.

Local Open Scope script_scope.

Definition join_lines (ls : list str) : str :=
  match ls with
  | [] => []
  | l :: ls' => l ++ flat_map (fun x => NEWLINE :: x) ls'
  end.

(** The prompt template with the word filled in. *)
Definition build_prompt (word : str) : str :=
  join_lines
    [ [];
      lit "    You are a kind English tutor for kids aged 6" ++ [EN_DASH] ++ lit "10.";
      [];
      lit "    For the word " ++ [DQUOTE] ++ word ++ [DQUOTE] ++ lit ", provide:";
      lit "    1. A short and simple meaning.";
      lit "    2. Three opposite words (antonyms).";
      lit "    3. Three similar words (synonyms).";
      lit "    4. Three very simple example sentences with 5 to 6 words. This is for Grade 1 to 3 kids";
      lit "    5. A short, vivid description for an illustration image (e.g., "
        ++ quoted "A happy sun smiling in the sky" ++ lit ").";
      [];
      lit "    Respond ONLY in JSON format:";
      lit "    {";
      lit "        " ++ quoted "meaning" ++ lit ": " ++ quoted "..." ++ lit ",";
      lit "        " ++ quoted "opposites" ++ lit ": [" ++ quoted "..." ++ lit ", "
        ++ quoted "..." ++ lit ", " ++ quoted "..." ++ lit "],";
      lit "        " ++ quoted "similar_words" ++ lit ": [" ++ quoted "..." ++ lit ", "
        ++ quoted "..." ++ lit ", " ++ quoted "..." ++ lit "],";
      lit "        " ++ quoted "sentences" ++ lit ": [" ++ quoted "..." ++ lit ", "
        ++ quoted "..." ++ lit ", " ++ quoted "..." ++ lit "],";
      lit "        " ++ quoted "image_prompt" ++ lit ": " ++ quoted "...";
      lit "    }";
      lit "    " ].

Definition format_error : exn := ValueError (lit "AI response format error.").

(** [get_word_details(word)]. *)
Definition get_word_details (word : str) : M WordInfo :=
  let prompt := build_prompt word in
  emit (ModelCall prompt) ;;
  response_text <- lift (llm_invoke prompt) ;;
  emit (Log (RawResponse word response_text)) ;;
  let response_text := clean_response response_text in
  emit (Log (CleanedResponse word response_text)) ;;
  try_except
    (match parse_raw response_text with
     | inr data => ret data
     | inl errors => raise (ValidationError errors)
     end)
    is_ValidationError
    (fun e =>
       emit (Log (ValidationFailed word e)) ;;
       raise format_error).

Definition image_url_of (description : str) : str :=
  let query := replace_space_plus description in
  lit "https://source.unsplash.com/512x512/?" ++ query ++ lit ",cartoon,colorful".

(** [get_image_for_word(description)]. *)
Definition get_image_for_word (description : str) : M (option str) :=
  try_except
    (let image_url := image_url_of description in
     emit (ImageCall image_url) ;;
     status_code <- lift (requests_get image_url) ;;
     if status_code =? 200 then ret (Some image_url) else ret None)
    (fun _ => true)
    (fun e =>
       emit (Log (ImageFetchFailed e)) ;;
       ret None).

(** The body of [if st.button("Explore Word")], for the text [word] of the
    input box. *)
Definition explore_word (word : str) : M unit :=
  match strip word with
  | [] => emit (Warning (lit "Please enter a word first!"))
  | _ :: _ =>
      let word := str_lower (strip word) in
      try_except
        (info <- get_word_details word ;;
         image_url <- get_image_for_word (image_prompt info) ;;
         h <- get_history ;;
         set_history (dict_setitem word (WordInfo_dict info) h) ;;
         emit (Success (lit "Here's what I found about **" ++ word ++ lit "**!")) ;;
         emit (ShowResult info))
        (fun _ => true)
        (fun e =>
           emit (ErrorBox (lit "Oops! Something went wrong. Please try again.")) ;;
           emit (Log (ErrorProcessing word e)))
  end.

(** One run of the script: the history is created empty when the session
    has none, the button's handler runs when it was pressed, and a history
    that is not empty is shown. *)
Definition script (session : option history_t) (word : str) (button : bool)
  : outcome unit :=
  let h0 := match session with Some h => h | None => [] end in
  ((if button then explore_word word else ret tt) ;;
   h <- get_history ;;
   match h with
   | [] => ret tt
   | _ :: _ => emit (ShowHistory h)
   end) h0.

End Script.

(** ** Sample data

    Concrete words, replies and oracles on which the theorems below are
    exercised. *)

(** [str.lower()] on ASCII text. *)
Definition ascii_lower (s : str) : str :=
  map (fun c => if (65 <=? c) && (c <=? 90) then c + 32 else c) s.

Definition comma_join (ls : list str) : str :=
  match ls with
  | [] => []
  | x :: ls' => x ++ flat_map (fun y => COMMA :: y) ls'
  end.

Definition json_array (l : list string) : str :=
  LBRACKET :: comma_join (map quoted l) ++ [RBRACKET].

(** The text of a reply with the five keys, without white space. *)
Definition sample_reply (m : string) (o w t : list string) (p : string) : str :=
  LBRACE :: comma_join
    [ quoted "meaning" ++ COLON :: quoted m;
      quoted "opposites" ++ COLON :: json_array o;
      quoted "similar_words" ++ COLON :: json_array w;
      quoted "sentences" ++ COLON :: json_array t;
      quoted "image_prompt" ++ COLON :: quoted p ] ++ [RBRACE].

Definition sample_info (m : string) (o w t : list string) (p : string) : WordInfo :=
  mkWordInfo (lit m) (map lit o) (map lit w) (map lit t) (lit p).

Definition happy_reply : str :=
  sample_reply "feeling good" ["sad"; "unhappy"; "gloomy"]
    ["glad"; "joyful"; "cheerful"]
    ["I am happy today."; "She feels happy now."; "We are happy here."]
    "a smiling sun".

Definition happy_info : WordInfo :=
  sample_info "feeling good" ["sad"; "unhappy"; "gloomy"]
    ["glad"; "joyful"; "cheerful"]
    ["I am happy today."; "She feels happy now."; "We are happy here."]
    "a smiling sun".

(** A reply in a json fence, and the same in a fence without the tag. *)
Definition fenced_reply : str :=
  lit "```json" ++ [NEWLINE] ++ happy_reply ++ [NEWLINE] ++ lit "```".

Definition bare_fenced_reply : str :=
  lit "```" ++ [NEWLINE] ++ lit "{}" ++ [NEWLINE] ++ lit "```".

(** A reply whose meaning is the empty string. *)
Definition empty_meaning_reply : str :=
  sample_reply "" ["a"; "b"; "c"] ["d"; "e"; "f"] ["g"; "h"; "i"] "j".

(** A model that always replies [r], an endpoint that always answers with
    status [n], and collaborators that always raise. *)
Definition replies (r : str) : str -> exn + str := fun _ => inr r.
Definition answers (n : N) : str -> exn + N := fun _ => inr n.
Definition unreachable {A : Type} : str -> exn + A :=
  fun _ => inl (Raised (lit "ConnectionError") (lit "unreachable")).

(** ** Start-up

    [os.getenv("CLAUDE_API_KEY")] on the process environment as
    [load_dotenv()] leaves it, and the check that follows: a key that is
    unset or empty stops the script with a [ValueError]. *)

Definition CROSS_MARK : char := 10060.

Definition missing_key_error : exn :=
  ValueError
    (CROSS_MARK ::
     lit " Anthropic API key not found. Please set ANTHROPIC_API_KEY in your .env file.").

Definition read_api_key (environ : dict str) : exn + str :=
  match dict_get (lit "CLAUDE_API_KEY") environ with
  | Some (c :: key) => inr (c :: key)
  | Some [] => inl missing_key_error
  | None => inl missing_key_error
  end.

(** ** The history display

    The widgets that the last block of the script creates for a history:
    a heading, and for each item an expander with the lines of the record.
    The block reads the stored dictionaries with [data[...]], joins and
    iterates their values, so on an arbitrary history it may raise
    [KeyError] or [TypeError]; the widgets created before the exception
    are not part of the result. The messages of these two exceptions are
    abbreviated. *)

#[local] Unset Elimination Schemes.
#[local] Set Elimination Schemes.









Section Display.

(** [str.capitalize()], a Unicode case mapping like [str.lower()], and
    [str(v)] for a value that is not a string. *)
Variable str_capitalize : str -> str.
Variable py_str : pyobj -> str.





End Display.

(** ** A browser session

    Streamlit runs the script again on every interaction and keeps
    [st.session_state] between the runs. One interaction fixes the text of
    the input box, whether the button was pressed, and how the model and
    the image endpoint answer during that run. *)

Record interaction : Type := mkInteraction {
  typed : str;
  pressed : bool;
  model : str -> exn + str;
  endpoint : str -> exn + N
}.

(** The history of a session: empty until a run has created it. *)
Definition session_history (session : option history_t) : history_t :=
  match session with
  | Some h => h
  | None => []
  end.

Definition rerun (str_lower : str -> str) (session : option history_t)
  (i : interaction) : option history_t :=
  Some (history (script str_lower (model i) (endpoint i) session (typed i) (pressed i))).

Definition session_after (str_lower : str -> str) (runs : list interaction)
  : option history_t :=
  fold_left (rerun str_lower) runs None.

(** ** Sorting the events of a run *)

Definition is_ModelCall (ev : event) : bool :=
  match ev with
  | ModelCall _ => true
  | _ => false
  end.

Definition is_ImageCall (ev : event) : bool :=
  match ev with
  | ImageCall _ => true
  | _ => false
  end.

(** The events that reach the page, as opposed to the calls made and the
    log file. *)
Definition on_page (ev : event) : bool :=
  match ev with
  | Warning _ | ErrorBox _ | Success _ | ShowResult _ | ShowHistory _ => true
  | ModelCall _ | ImageCall _ | Log _ => false
  end.

(* ================================================================== *)
(** * Part II: theorems *)
(* ================================================================== *)

(** ** Text *)

Lemma str_eqb_eq (a b : str) : str_eqb a b = true <-> a = b.
Proof.
  revert b; induction a as [|x a IH]; intros [|y b]; simpl; split;
    try congruence; try discriminate.
  - rewrite andb_true_iff, N.eqb_eq, IH. intros [-> ->]; reflexivity.
  - intros [= -> ->]. rewrite N.eqb_refl. simpl. apply IH; reflexivity.
Qed.

Lemma str_eqb_refl (a : str) : str_eqb a a = true.
Proof. apply str_eqb_eq; reflexivity. Qed.

Lemma str_eqb_neq (a b : str) : str_eqb a b = false <-> a <> b.
Proof.
  rewrite <- str_eqb_eq. destruct (str_eqb a b); split; congruence.
Qed.

Lemma strip_prefix_app (l s r : str) : strip_prefix l s = Some r -> s = l ++ r.
Proof.
  revert s; induction l as [|x l IH]; intros [|y s]; simpl; try congruence.
  destruct (N.eqb_spec x y); [|discriminate].
  intros H; apply IH in H; subst; reflexivity.
Qed.

Lemma strip_prefix_here (l r : str) : strip_prefix l (l ++ r) = Some r.
Proof.
  induction l as [|x l IH]; simpl; [destruct r; reflexivity|].
  rewrite N.eqb_refl; exact IH.
Qed.

Lemma all_space_app (u v : str) :
  all_space (u ++ v) = all_space u && all_space v.
Proof. apply forallb_app. Qed.

Lemma lstrip_space (w s : str) : all_space w = true -> lstrip (w ++ s) = lstrip s.
Proof.
  induction w as [|c w IH]; simpl; [reflexivity|].
  rewrite andb_true_iff; intros [-> Hw]; auto.
Qed.

Lemma lstrip_fixed (s : str) :
  lstrip s = s -> s = [] \/ exists c s', s = c :: s' /\ Py_UNICODE_ISSPACE c = false.
Proof.
  assert (Hlen : forall t, (List.length (lstrip t) <= List.length t)%nat).
  { induction t as [|c t IH]; simpl; [lia|].
    destruct (Py_UNICODE_ISSPACE c); simpl; lia. }
  destruct s as [|c s]; [left; reflexivity|right].
  exists c, s; split; [reflexivity|].
  simpl in H. destruct (Py_UNICODE_ISSPACE c); [|reflexivity].
  specialize (Hlen s). rewrite H in Hlen; simpl in Hlen; lia.
Qed.

Lemma rstrip_all_space (w : str) : all_space w = true -> rstrip w = [].
Proof.
  induction w as [|c w IH]; simpl; [reflexivity|].
  rewrite andb_true_iff; intros [-> Hw]. rewrite (IH Hw); reflexivity.
Qed.

Lemma rstrip_app_space (s w : str) : all_space w = true -> rstrip (s ++ w) = rstrip s.
Proof.
  intros Hw; induction s as [|c s IH]; simpl.
  - apply rstrip_all_space; exact Hw.
  - rewrite IH; reflexivity.
Qed.

Lemma rstrip_snoc (s : str) (z : char) :
  Py_UNICODE_ISSPACE z = false -> rstrip (s ++ [z]) = s ++ [z].
Proof.
  intros Hz; induction s as [|c s IH]; simpl.
  - rewrite Hz; reflexivity.
  - rewrite IH. destruct s; reflexivity.
Qed.

Lemma rstrip_tail (c : char) (s : str) : rstrip (c :: s) = c :: s -> rstrip s = s.
Proof.
  simpl. destruct (rstrip s) as [|x r] eqn:E.
  - destruct (Py_UNICODE_ISSPACE c); [discriminate|]. intros [= <-]; reflexivity.
  - intros [= <-]; reflexivity.
Qed.

Lemma rstrip_fixed_not_space (s : str) :
  rstrip s = s -> s <> [] -> all_space s = false.
Proof.
  intros H Hne. destruct (all_space s) eqn:E; [|reflexivity].
  rewrite (rstrip_all_space _ E) in H. congruence.
Qed.

(** Stripping a text that starts and ends with a character that is not
    white space removes exactly the white space around it. *)
Lemma strip_wrapped (w0 w3 m : str) (a z : char) :
  all_space w0 = true -> all_space w3 = true ->
  Py_UNICODE_ISSPACE a = false -> Py_UNICODE_ISSPACE z = false ->
  strip (w0 ++ (a :: m ++ [z]) ++ w3) = a :: m ++ [z].
Proof.
  intros H0 H3 Ha Hz. unfold strip.
  rewrite app_assoc, (rstrip_app_space _ _ H3).
  replace (w0 ++ a :: m ++ [z]) with ((w0 ++ a :: m) ++ [z])
    by (rewrite <- app_assoc; reflexivity).
  rewrite (rstrip_snoc _ _ Hz), <- app_assoc, (lstrip_space _ _ H0).
  simpl. rewrite Ha. reflexivity.
Qed.

Lemma strip_all_space (w : str) : all_space w = true -> strip w = [].
Proof. intros H; unfold strip; rewrite (rstrip_all_space _ H); reflexivity. Qed.

(** ** The fence pattern *)

Lemma match_seq_closing (bol : bool) (s : str) :
  match_seq closing bol s = star_space closing_tail bol s.
Proof. reflexivity. Qed.

Lemma star_space_end (bol : bool) (s : str) :
  star_space (match_seq []) bol s = Some (lstrip s).
Proof.
  revert bol; induction s as [|c s IH]; intros bol; simpl; [reflexivity|].
  destruct (Py_UNICODE_ISSPACE c); [rewrite IH|]; reflexivity.
Qed.

Lemma star_space_inv (k : bool -> str -> option str) (bol : bool) (s r : str) :
  star_space k bol s = Some r ->
  exists w s' b, s = w ++ s' /\ all_space w = true /\ k b s' = Some r.
Proof.
  revert bol; induction s as [|c s IH]; intros bol; simpl.
  - intros H; exists [], [], bol; auto.
  - destruct (Py_UNICODE_ISSPACE c) eqn:Ec.
    + destruct (star_space k false s) as [r'|] eqn:E.
      * intros [= ->]. destruct (IH _ E) as (w & s' & b & -> & Hw & Hk).
        exists (c :: w), s', b; simpl; rewrite Ec, Hw; auto.
      * intros H; exists [], (c :: s), bol; auto.
    + intros H; exists [], (c :: s), bol; auto.
Qed.

Lemma opening_match (rest : str) :
  match_alt fence_pattern true (lit "```json" ++ rest) = Some (lstrip rest).
Proof.
  unfold fence_pattern, opening, match_alt, match_seq.
  rewrite strip_prefix_here. rewrite star_space_end. reflexivity.
Qed.

Lemma opening_not_inside (s : str) : match_seq opening false s = None.
Proof. reflexivity. Qed.

Lemma closing_match (bol : bool) (w : str) :
  all_space w = true -> match_seq closing bol (w ++ lit "```") = Some [].
Proof.
  rewrite match_seq_closing. revert bol.
  induction w as [|c w IH]; intros bol; simpl; [reflexivity|].
  rewrite andb_true_iff; intros [-> Hw]. rewrite (IH false Hw); reflexivity.
Qed.

Lemma closing_inv (bol : bool) (s r : str) :
  match_seq closing bol s = Some r ->
  exists w, all_space w = true /\ s = w ++ lit "```" ++ r /\ at_end r = true.
Proof.
  rewrite match_seq_closing. intros H.
  apply star_space_inv in H. destruct H as (w & s' & b & -> & Hw & H).
  unfold closing_tail in H.
  destruct (strip_prefix (lit "```") s') as [t|] eqn:E; [|discriminate H].
  apply strip_prefix_app in E. destruct (at_end t) eqn:Et; [|discriminate H].
  injection H as <-. exists w; subst; auto.
Qed.

(** Inside a text that ends with a closing fence, the closing alternative
    does not match before the white space in front of that fence. *)
Lemma closing_not_before (bol : bool) (c : char) (core w : str) :
  rstrip (c :: core) = c :: core -> all_space w = true ->
  match_seq closing bol ((c :: core) ++ w ++ lit "```") = None.
Proof.
  intros Hcore Hw.
  destruct (match_seq closing bol ((c :: core) ++ w ++ lit "```")) as [r|] eqn:E;
    [exfalso|reflexivity].
  apply closing_inv in E. destruct E as (u & Hu & Heq & Hr).
  destruct r as [|x [|y r]]; try discriminate.
  - rewrite app_nil_r, app_assoc in Heq. apply app_inv_tail in Heq.
    assert (Hsp : all_space ((c :: core) ++ w) = true) by (rewrite Heq; exact Hu).
    rewrite all_space_app, andb_true_iff in Hsp. destruct Hsp as [Hsp _].
    rewrite (rstrip_fixed_not_space _ Hcore) in Hsp by discriminate. discriminate Hsp.
  - simpl in Hr. apply N.eqb_eq in Hr. subst x.
    change (lit "```" ++ [NEWLINE]) with ((lit "```") ++ [NEWLINE]) in Heq.
    replace ((c :: core) ++ w ++ lit "```")
      with (((c :: core) ++ w ++ lit "``") ++ [BACKTICK]) in Heq
      by (rewrite <- !app_assoc; reflexivity).
    rewrite !app_assoc in Heq. apply app_inj_tail in Heq.
    destruct Heq as [_ Heq]. discriminate.
Qed.

Lemma re_sub_scan_skip (p : re_pattern) (pre r : str) :
  re_sub_scan p false (List.length pre) (pre ++ r) = re_sub_scan p false 0 r.
Proof.
  induction pre as [|c pre IH]; simpl; [destruct r; reflexivity|exact IH].
Qed.

Lemma re_sub_scan_cons (p : re_pattern) (bol : bool) (c : char) (s : str) :
  re_sub_scan p bol 0 (c :: s) =
  match match_alt p bol (c :: s) with
  | Some r =>
      match (List.length (c :: s) - List.length r)%nat with
      | S k => re_sub_scan p false k s
      | O => c :: re_sub_scan p false 0 s
      end
  | None => c :: re_sub_scan p false 0 s
  end.
Proof. reflexivity. Qed.

Lemma re_sub_scan_match (p : re_pattern) (bol : bool) (c : char) (pre r : str) :
  match_alt p bol ((c :: pre) ++ r) = Some r ->
  re_sub_scan p bol 0 ((c :: pre) ++ r) = re_sub_scan p false 0 r.
Proof.
  intros H. change ((c :: pre) ++ r) with (c :: (pre ++ r)) in *.
  rewrite re_sub_scan_cons, H.
  replace (List.length (c :: pre ++ r) - List.length r)%nat with (S (List.length pre))
    by (cbn [List.length]; rewrite length_app; lia).
  apply re_sub_scan_skip.
Qed.

Lemma re_sub_scan_keep (p : re_pattern) (bol : bool) (c : char) (s : str) :
  match_alt p bol (c :: s) = None ->
  re_sub_scan p bol 0 (c :: s) = c :: re_sub_scan p false 0 s.
Proof. intros H. rewrite re_sub_scan_cons, H. reflexivity. Qed.

(** After the opening fence, the scan keeps everything up to the white
    space in front of the closing fence. *)
Lemma scan_body (core w : str) :
  rstrip core = core -> all_space w = true ->
  re_sub_scan fence_pattern false 0 (core ++ w ++ lit "```") = core.
Proof.
  intros Hcore Hw. induction core as [|c core IH].
  - assert (E : match_alt fence_pattern false (w ++ lit "```") = Some []).
    { unfold fence_pattern, match_alt.
      rewrite opening_not_inside, closing_match by exact Hw; reflexivity. }
    simpl app. destruct (w ++ lit "```") as [|x t] eqn:Ex.
    + destruct w; discriminate.
    + pose proof (re_sub_scan_match fence_pattern false x t []) as H.
      rewrite !app_nil_r in H. rewrite (H E); reflexivity.
  - change ((c :: core) ++ w ++ lit "```") with (c :: (core ++ w ++ lit "```")).
    rewrite re_sub_scan_keep.
    + rewrite IH; [reflexivity|]. apply (rstrip_tail c); exact Hcore.
    + unfold fence_pattern, match_alt.
      rewrite opening_not_inside.
      change (c :: core ++ w ++ lit "```") with ((c :: core) ++ w ++ lit "```").
      rewrite closing_not_before by assumption. reflexivity.
Qed.

Lemma lstrip_split (s : str) : exists w, s = w ++ lstrip s /\ all_space w = true.
Proof.
  induction s as [|c s (w & IH & Hw)]; [exists []; auto|]. cbn [lstrip].
  destruct (Py_UNICODE_ISSPACE c) eqn:Ec.
  - exists (c :: w). cbn [app all_space forallb]. rewrite Ec, <- IH. auto.
  - exists []. auto.
Qed.

Lemma rstrip_app_fixed (u s : str) :
  rstrip s = s -> s <> [] -> rstrip (u ++ s) = u ++ s.
Proof.
  intros Hs Hne. induction u as [|c u IH]; simpl; [exact Hs|].
  rewrite IH. destruct (u ++ s) eqn:E; [|reflexivity].
  apply app_eq_nil in E. tauto.
Qed.

(** Stripping removes exactly the white space around a text that has none
    at its own ends. *)
Lemma strip_between (w0 w3 s : str) :
  all_space w0 = true -> all_space w3 = true ->
  lstrip s = s -> rstrip s = s -> strip (w0 ++ s ++ w3) = s.
Proof.
  intros H0 H3 Hl Hr. unfold strip.
  rewrite app_assoc, (rstrip_app_space _ _ H3).
  destruct s as [|c s].
  - rewrite app_nil_r, (rstrip_all_space _ H0). reflexivity.
  - rewrite (rstrip_app_fixed _ _ Hr) by discriminate.
    rewrite (lstrip_space _ _ H0). exact Hl.
Qed.

Lemma rstrip_closing (y : str) : rstrip (y ++ lit "```") = y ++ lit "```".
Proof.
  change (lit "```") with (lit "``" ++ [BACKTICK]).
  rewrite app_assoc. apply rstrip_snoc. reflexivity.
Qed.

Lemma lstrip_before_closing (payload w2 : str) :
  lstrip payload = payload -> all_space w2 = true ->
  exists w, all_space w = true /\
            lstrip (payload ++ w2 ++ lit "```") = payload ++ w ++ lit "```".
Proof.
  intros Hl H2. destruct (lstrip_fixed _ Hl) as [->|(c & s' & -> & Hc)].
  - exists []. split; [reflexivity|].
    cbn [app]. rewrite (lstrip_space _ _ H2). reflexivity.
  - exists w2. split; [exact H2|]. cbn [app lstrip]. rewrite Hc. reflexivity.
Qed.

(** ** The decoder: what a scanning step consumes

    Each scanning function reads a prefix of its input and returns the
    rest.  Two facts are proved for each of them: the rest is a suffix of
    the input ([_split]), and cutting the input anywhere inside the rest
    does not change what is read ([_trunc]). *)

(** Close a goal by comparing the lengths of the two sides of [E]. *)
Ltac by_length E :=
  apply (f_equal (@List.length char)) in E;
  cbn [List.length] in *; rewrite ?length_app in *; cbn [List.length] in *; lia.

Lemma suffix_split (p r' s t : str) :
  p ++ r' = s ++ t -> (List.length t <= List.length r')%nat ->
  exists r, r' = r ++ t /\ s = p ++ r.
Proof.
  revert s; induction p as [|x p IH]; intros s H Hlen; simpl in H.
  - exists s; auto.
  - destruct s as [|y s]; simpl in H.
    + exfalso. rewrite <- H in Hlen. simpl in Hlen. rewrite length_app in Hlen. lia.
    + injection H as -> H. destruct (IH _ H Hlen) as (r & -> & ->).
      exists r; auto.
Qed.

Lemma skip_whitespace_split (s : str) :
  exists w, s = w ++ skip_whitespace s /\ json_space w = true.
Proof.
  induction s as [|c s (w & IH & Hw)]; [exists []; auto|]. simpl.
  destruct (IS_WHITESPACE c) eqn:Ec.
  - exists (c :: w). simpl. rewrite Ec, Hw, <- IH. auto.
  - exists []. auto.
Qed.

Lemma skip_whitespace_length (s : str) :
  (List.length (skip_whitespace s) <= List.length s)%nat.
Proof.
  destruct (skip_whitespace_split s) as (w & H & _).
  rewrite H at 2. rewrite length_app. lia.
Qed.

Lemma skip_whitespace_space (w s : str) :
  json_space w = true -> skip_whitespace (w ++ s) = skip_whitespace s.
Proof.
  induction w as [|c w IH]; simpl; [reflexivity|].
  rewrite andb_true_iff; intros [-> Hw]; auto.
Qed.

Lemma skip_whitespace_trunc (a t x : str) :
  skip_whitespace (a ++ t) = x -> (List.length t < List.length x)%nat ->
  exists x', x = x' ++ t /\ skip_whitespace a = x'.
Proof.
  induction a as [|c a IH]; simpl; intros H Hlen.
  - exfalso. pose proof (skip_whitespace_length t). rewrite H in *. lia.
  - destruct (IS_WHITESPACE c); [auto|]. exists (c :: a). subst x; auto.
Qed.

Lemma prepend_inv (x : str) (o : option (str * str)) (v r : str) :
  prepend x o = Some (v, r) -> exists v', o = Some (v', r) /\ v = x ++ v'.
Proof.
  destruct o as [[v' r']|]; simpl; [|discriminate].
  intros [= <- <-]. exists v'; auto.
Qed.

(** A string scan reads up to its closing quote and looks at nothing
    behind it. *)
Lemma scanstring_from_exact (n : nat) :
  forall pending s v r,
    (List.length s <= n)%nat -> scanstring_from pending s = Some (v, r) ->
    exists p, s = p ++ r /\ p <> [] /\
              forall r2, scanstring_from pending (p ++ r2) = Some (v, r2).
Proof.
  induction n as [|n IH]; intros pending s v r Hn H.
  - destruct s; [discriminate H|simpl in Hn; lia].
  - destruct s as [|c s1]; [discriminate H|]. simpl in Hn.
    cbn [scanstring_from] in H.
    destruct (c =? DQUOTE) eqn:Eq.
    { injection H as <- <-. exists [c]. repeat split; [discriminate|].
      intros r2. cbn [app scanstring_from]. rewrite Eq. reflexivity. }
    destruct (c =? BACKSLASH) eqn:Eb.
    2:{ destruct (c <=? 31) eqn:Ec; [discriminate H|].
        apply prepend_inv in H. destruct H as (v' & H & ->).
        apply IH in H; [|lia]. destruct H as (p & -> & _ & Hp).
        exists (c :: p). repeat split; [discriminate|].
        intros r2. cbn [app scanstring_from]. rewrite Eq, Eb, Ec, Hp.
        reflexivity. }
    destruct s1 as [|e s2]; [discriminate H|]. simpl in Hn.
    destruct (e =? 117) eqn:Eu.
    2:{ destruct (simple_escape e) as [x|] eqn:Ex; [|discriminate H].
        apply prepend_inv in H. destruct H as (v' & H & ->).
        apply IH in H; [|lia]. destruct H as (p & -> & _ & Hp).
        exists (c :: e :: p). repeat split; [discriminate|].
        intros r2. cbn [app scanstring_from]. rewrite Eq, Eb, Eu, Ex, Hp.
        reflexivity. }
    destruct s2 as [|h1 [|h2 [|h3 [|h4 s3]]]]; try discriminate H.
    simpl in Hn.
    destruct (hex4 h1 h2 h3 h4) as [uni|] eqn:Eh; [|discriminate H].
    destruct (surrogate_step pending uni) as [out pending'] eqn:Es.
    apply prepend_inv in H. destruct H as (v' & H & ->).
    apply IH in H; [|lia]. destruct H as (p & -> & _ & Hp).
    exists (c :: e :: h1 :: h2 :: h3 :: h4 :: p). repeat split; [discriminate|].
    intros r2. cbn [app scanstring_from]. rewrite Eq, Eb, Eu, Eh, Es, Hp.
    reflexivity.
Qed.

Lemma scanstring_exact (s v r : str) :
  scanstring s = Some (v, r) ->
  exists p, s = p ++ r /\ p <> [] /\ forall r2, scanstring (p ++ r2) = Some (v, r2).
Proof. apply (scanstring_from_exact (List.length s)). lia. Qed.

Lemma scanstring_trunc (s t v r' : str) :
  scanstring (s ++ t) = Some (v, r') -> (List.length t <= List.length r')%nat ->
  exists r, r' = r ++ t /\ scanstring s = Some (v, r).
Proof.
  intros H Hlen. destruct (scanstring_exact _ _ _ H) as (p & Hp & _ & Hex).
  symmetry in Hp. destruct (suffix_split _ _ _ _ Hp Hlen) as (r & -> & ->).
  exists r; auto.
Qed.

Lemma span_digits_split (s ds r : str) : span_digits s = (ds, r) -> s = ds ++ r.
Proof.
  revert ds r; induction s as [|c s IH]; simpl; intros ds r H.
  - injection H as <- <-; reflexivity.
  - destruct (is_digit c).
    + destruct (span_digits s) as [ds' r'']. injection H as <- <-.
      simpl. rewrite (IH _ _ eq_refl). reflexivity.
    + injection H as <- <-; reflexivity.
Qed.

Lemma span_digits_trunc (a t ds r' : str) :
  span_digits (a ++ t) = (ds, r') -> (List.length t <= List.length r')%nat ->
  exists r, r' = r ++ t /\ span_digits a = (ds, r).
Proof.
  revert ds r'; induction a as [|c a IH]; intros ds r' H Hlen.
  - simpl in H. pose proof (span_digits_split _ _ _ H) as E.
    assert (ds = []) as ->.
    { destruct ds; [reflexivity|]. by_length E. }
    simpl in E. subst r'. exists []; auto.
  - simpl in H |- *. destruct (is_digit c).
    + destruct (span_digits (a ++ t)) as [ds' r''] eqn:E. injection H as <- <-.
      destruct (IH _ _ eq_refl Hlen) as (r & -> & ->). exists r; auto.
    + injection H as <- <-. exists (c :: a); auto.
Qed.

Lemma span_digits_none (a t r' : str) :
  span_digits (a ++ t) = ([], r') -> span_digits a = ([], a).
Proof.
  destruct a as [|c a]; simpl; [reflexivity|].
  destruct (is_digit c); [|reflexivity].
  destruct (span_digits (a ++ t)); discriminate.
Qed.

Lemma number_sign_split (s x r : str) : number_sign s = (x, r) -> s = x ++ r.
Proof.
  destruct s as [|c s]; simpl; [intros [= <- <-]; reflexivity|].
  destruct (c =? MINUS); intros [= <- <-]; reflexivity.
Qed.

Lemma number_sign_trunc (a t x r' : str) :
  number_sign (a ++ t) = (x, r') -> (List.length t <= List.length r')%nat ->
  exists r, r' = r ++ t /\ number_sign a = (x, r).
Proof.
  intros H Hlen. destruct a as [|c a].
  - pose proof (number_sign_split _ _ _ H) as E. simpl in E.
    assert (x = []) as ->.
    { destruct x; [reflexivity|]. by_length E. }
    simpl in E. subst. exists []; auto.
  - simpl in H |- *. destruct (c =? MINUS); injection H as <- <-.
    + exists a; auto.
    + exists (c :: a); auto.
Qed.

Lemma number_integer_split (s x r : str) :
  number_integer s = Some (x, r) -> s = x ++ r /\ x <> [].
Proof.
  destruct s as [|d s]; simpl; [discriminate|].
  destruct ((49 <=? d) && (d <=? 57)).
  - destruct (span_digits s) as [ds r''] eqn:E. intros [= <- <-].
    rewrite (span_digits_split _ _ _ E). split; [reflexivity|discriminate].
  - destruct (d =? 48); [|discriminate]. intros [= <- <-].
    split; [reflexivity|discriminate].
Qed.

Lemma number_integer_trunc (a t x r' : str) :
  number_integer (a ++ t) = Some (x, r') -> (List.length t <= List.length r')%nat ->
  exists r, r' = r ++ t /\ number_integer a = Some (x, r).
Proof.
  intros H Hlen. destruct a as [|d a].
  - exfalso. apply number_integer_split in H. destruct H as [E Hx].
    simpl in E. destruct x; [congruence|]. by_length E.
  - simpl in H |- *. destruct ((49 <=? d) && (d <=? 57)).
    + destruct (span_digits (a ++ t)) as [ds r''] eqn:E. injection H as <- <-.
      destruct (span_digits_trunc _ _ _ _ E Hlen) as (r & -> & ->).
      exists r; auto.
    + destruct (d =? 48); [|discriminate H]. injection H as <- <-.
      exists a; auto.
Qed.

Lemma number_fraction_split (s x r : str) : number_fraction s = (x, r) -> s = x ++ r.
Proof.
  destruct s as [|p [|d s]]; simpl; try (intros [= <- <-]; reflexivity).
  destruct ((p =? DOT) && is_digit d); [|intros [= <- <-]; reflexivity].
  destruct (span_digits s) as [ds r''] eqn:E. intros [= <- <-].
  rewrite (span_digits_split _ _ _ E). reflexivity.
Qed.

Lemma number_fraction_trunc (a t x r' : str) :
  number_fraction (a ++ t) = (x, r') -> (List.length t <= List.length r')%nat ->
  exists r, r' = r ++ t /\ number_fraction a = (x, r).
Proof.
  intros H Hlen.
  assert (Hnil : x = [] -> exists r, r' = r ++ t /\ number_fraction a = (x, r)).
  { intros ->. pose proof (number_fraction_split _ _ _ H) as E. simpl in E.
    subst r'. exists a. split; [reflexivity|].
    destruct a as [|p [|d a]]; try reflexivity.
    simpl in H |- *. destruct ((p =? DOT) && is_digit d); [|reflexivity].
    destruct (span_digits (a ++ t)); discriminate H. }
  destruct a as [|p [|d a]].
  - apply Hnil. pose proof (number_fraction_split _ _ _ H) as E. simpl in E.
    destruct x; [reflexivity|]. by_length E.
  - apply Hnil. destruct t as [|d t]; simpl in H.
    + injection H as <- <-; reflexivity.
    + destruct ((p =? DOT) && is_digit d); [|injection H as <- <-; reflexivity].
      destruct (span_digits t) as [ds r''] eqn:E. injection H as <- <-.
      apply span_digits_split in E. by_length E.
  - simpl in H |- *. destruct ((p =? DOT) && is_digit d).
    + destruct (span_digits (a ++ t)) as [ds r''] eqn:E. injection H as <- <-.
      destruct (span_digits_trunc _ _ _ _ E Hlen) as (r & -> & ->).
      exists r; auto.
    + injection H as <- <-. exists (p :: d :: a); auto.
Qed.

Lemma exponent_sign_split (s x r : str) : exponent_sign s = (x, r) -> s = x ++ r.
Proof.
  destruct s as [|c s]; simpl; [intros [= <- <-]; reflexivity|].
  destruct ((c =? PLUS) || (c =? MINUS)); intros [= <- <-]; reflexivity.
Qed.

Lemma exponent_sign_app (c : char) (a t : str) :
  exponent_sign ((c :: a) ++ t) =
  (fst (exponent_sign (c :: a)), snd (exponent_sign (c :: a)) ++ t).
Proof. simpl. destruct ((c =? PLUS) || (c =? MINUS)); reflexivity. Qed.

Lemma number_exponent_split (s x r : str) : number_exponent s = (x, r) -> s = x ++ r.
Proof.
  destruct s as [|e s]; simpl; [intros [= <- <-]; reflexivity|].
  destruct ((e =? 101) || (e =? 69)); [|intros [= <- <-]; reflexivity].
  destruct (exponent_sign s) as [sg s''] eqn:Es.
  destruct (span_digits s'') as [ds r''] eqn:Ed.
  apply exponent_sign_split in Es. apply span_digits_split in Ed. subst.
  destruct ds; intros [= <- <-]; [reflexivity|].
  simpl. rewrite <- !app_assoc. reflexivity.
Qed.

Lemma number_exponent_trunc (a t x r' : str) :
  number_exponent (a ++ t) = (x, r') -> (List.length t <= List.length r')%nat ->
  exists r, r' = r ++ t /\ number_exponent a = (x, r).
Proof.
  intros H Hlen. pose proof (number_exponent_split _ _ _ H) as E.
  destruct a as [|e a].
  - assert (x = []) as -> by (destruct x; [reflexivity|by_length E]).
    simpl in E. subst r'. exists []; auto.
  - cbn [app number_exponent] in H |- *.
    destruct ((e =? 101) || (e =? 69)).
    2:{ injection H as <- <-. exists (e :: a); auto. }
    destruct a as [|g a].
    + (* the letter is the last character before the cut *)
      cbn [app] in H. destruct (exponent_sign t) as [sg s''] eqn:Es.
      destruct (span_digits s'') as [ds r''] eqn:Ed.
      apply exponent_sign_split in Es. apply span_digits_split in Ed.
      destruct ds; injection H as <- <-.
      * exists [e]; auto.
      * exfalso. apply (f_equal (@List.length char)) in Es, Ed.
        rewrite length_app in Es, Ed. cbn [List.length] in Ed. lia.
    + rewrite exponent_sign_app in H.
      destruct (exponent_sign (g :: a)) as [sg s''] eqn:Es. cbn [fst snd] in H.
      destruct (span_digits (s'' ++ t)) as [ds r''] eqn:Ed.
      destruct ds as [|d ds].
      * injection H as <- <-. rewrite (span_digits_none _ _ _ Ed).
        exists (e :: g :: a); auto.
      * injection H as <- <-.
        destruct (span_digits_trunc _ _ _ _ Ed Hlen) as (r & -> & ->).
        exists r; auto.
Qed.

Lemma match_number_split (s : str) (v : pyobj) (r : str) :
  match_number s = Some (v, r) -> exists p, s = p ++ r /\ p <> [].
Proof.
  unfold match_number. destruct (number_sign s) as [sign s1] eqn:E1.
  destruct (number_integer s1) as [[ip ri]|] eqn:E2; [|discriminate].
  destruct (number_fraction ri) as [frac r1] eqn:E3.
  destruct (number_exponent r1) as [expo r2] eqn:E4.
  apply number_sign_split in E1. apply number_integer_split in E2.
  destruct E2 as [E2 Hip].
  apply number_fraction_split in E3. apply number_exponent_split in E4.
  intros H. assert (r = r2) as -> by (destruct frac, expo; congruence).
  exists (sign ++ ip ++ frac ++ expo). subst. rewrite <- !app_assoc. split; [reflexivity|].
  destruct sign; [|discriminate]. destruct ip; [congruence|discriminate].
Qed.

Lemma match_number_trunc (s t : str) (v : pyobj) (r' : str) :
  match_number (s ++ t) = Some (v, r') -> (List.length t <= List.length r')%nat ->
  exists r, r' = r ++ t /\ match_number s = Some (v, r).
Proof.
  unfold match_number. destruct (number_sign (s ++ t)) as [sign s1] eqn:E1.
  destruct (number_integer s1) as [[ip ri]|] eqn:E2; [|discriminate].
  destruct (number_fraction ri) as [frac r1] eqn:E3.
  destruct (number_exponent r1) as [expo r2] eqn:E4.
  intros H Hlen. assert (r' = r2) as -> by (destruct frac, expo; congruence).
  pose proof (number_integer_split _ _ _ E2) as [L2 _].
  pose proof (number_fraction_split _ _ _ E3) as L3.
  pose proof (number_exponent_split _ _ _ E4) as L4.
  assert (H4 : (List.length t <= List.length r1)%nat) by by_length L4.
  assert (H3 : (List.length t <= List.length ri)%nat) by by_length L3.
  assert (H2 : (List.length t <= List.length s1)%nat) by by_length L2.
  destruct (number_sign_trunc _ _ _ _ E1 H2) as (s1' & -> & ->).
  destruct (number_integer_trunc _ _ _ _ E2 H3) as (ri' & -> & ->).
  destruct (number_fraction_trunc _ _ _ _ E3 H4) as (r1' & -> & ->).
  destruct (number_exponent_trunc _ _ _ _ E4 Hlen) as (r2' & -> & ->).
  exists r2'. split; [reflexivity|]. cbv beta iota.
  destruct frac, expo; injection H as <-; reflexivity.
Qed.

Lemma strip_prefix_none_trunc (l s t : str) :
  strip_prefix l (s ++ t) = None -> strip_prefix l s = None.
Proof.
  intros H. destruct (strip_prefix l s) as [r|] eqn:E; [|reflexivity].
  apply strip_prefix_app in E. subst s.
  rewrite <- app_assoc, strip_prefix_here in H. discriminate.
Qed.

Lemma match_constant_split (s : str) (v : pyobj) (r : str) :
  match_constant constants s = Some (v, r) -> exists p, s = p ++ r /\ p <> [].
Proof.
  unfold constants, match_constant.
  repeat match goal with
  | |- context [strip_prefix ?l s] =>
      let E := fresh "E" in
      destruct (strip_prefix l s) eqn:E;
      [apply strip_prefix_app in E; intros [= <- <-]; exists l;
       split; [exact E|discriminate]|]
  end.
  discriminate.
Qed.

Lemma match_constant_trunc (cs : list (str * pyobj)) (s t : str) (v : pyobj) (r' : str) :
  match_constant cs (s ++ t) = Some (v, r') -> (List.length t <= List.length r')%nat ->
  exists r, r' = r ++ t /\ match_constant cs s = Some (v, r).
Proof.
  intros H Hlen. induction cs as [|[name v0] cs IH]; [discriminate H|].
  cbn [match_constant] in H |- *.
  destruct (strip_prefix name (s ++ t)) as [r0|] eqn:E.
  - injection H as <- <-. apply strip_prefix_app in E. symmetry in E.
    destruct (suffix_split _ _ _ _ E Hlen) as (r & -> & ->).
    exists r. rewrite strip_prefix_here. auto.
  - rewrite (strip_prefix_none_trunc _ _ _ E). auto.
Qed.

Lemma match_constant_none_trunc (cs : list (str * pyobj)) (s t : str) :
  match_constant cs (s ++ t) = None -> match_constant cs s = None.
Proof.
  induction cs as [|[name v0] cs IH]; [reflexivity|].
  cbn [match_constant]. destruct (strip_prefix name (s ++ t)) eqn:E; [discriminate|].
  rewrite (strip_prefix_none_trunc _ _ _ E). exact IH.
Qed.

Lemma match_constant_not_dict (s : str) (d : dict pyobj) (r : str) :
  match_constant constants s <> Some (PyDict d, r).
Proof.
  unfold constants, match_constant.
  repeat match goal with
  | |- context [strip_prefix ?l s] => destruct (strip_prefix l s); [discriminate|]
  end.
  discriminate.
Qed.

Lemma match_number_not_dict (s : str) (d : dict pyobj) (r : str) :
  match_number s <> Some (PyDict d, r).
Proof.
  unfold match_number. destruct (number_sign s) as [sign s1].
  destruct (number_integer s1) as [[ip ri]|]; [|discriminate].
  destruct (number_fraction ri) as [frac r1].
  destruct (number_exponent r1) as [expo r2].
  destruct frac, expo; discriminate.
Qed.

(** The bodies of the three mutually recursive scanning functions. *)
Lemma scan_once_S (f : nat) (s : str) :
  scan_once (S f) s =
  match s with
  | [] => ScanError
  | c :: s' =>
      if c =? DQUOTE then
        match scanstring s' with
        | Some (v, r) => Scanned (PyStr v) r
        | None => ScanError
        end
      else if c =? LBRACE then
        match skip_whitespace s' with
        | c1 :: s1 =>
            if c1 =? RBRACE then Scanned (PyDict []) s1
            else
              match parse_object f [] (c1 :: s1) with
              | Scanned d r => Scanned (PyDict d) r
              | ScanError => ScanError
              | Exhausted => Exhausted
              end
        | [] => ScanError
        end
      else if c =? LBRACKET then
        match skip_whitespace s' with
        | c1 :: s1 =>
            if c1 =? RBRACKET then Scanned (PyList []) s1
            else
              match parse_array f [] (c1 :: s1) with
              | Scanned l r => Scanned (PyList l) r
              | ScanError => ScanError
              | Exhausted => Exhausted
              end
        | [] => ScanError
        end
      else
        match match_constant constants s with
        | Some (v, r) => Scanned v r
        | None =>
            match match_number s with
            | Some (v, r) => Scanned v r
            | None => ScanError
            end
        end
  end.
Proof. reflexivity. Qed.

Lemma parse_object_S (f : nat) (rval : dict pyobj) (s : str) :
  parse_object (S f) rval s =
  match s with
  | q :: s1 =>
      if q =? DQUOTE then
        match scanstring s1 with
        | Some (key, s2) =>
            match skip_whitespace s2 with
            | c :: s3 =>
                if c =? COLON then
                  match scan_once f (skip_whitespace s3) with
                  | Scanned val s4 =>
                      let rval' := dict_setitem key val rval in
                      match skip_whitespace s4 with
                      | d :: s5 =>
                          if d =? RBRACE then Scanned rval' s5
                          else if d =? COMMA then
                            parse_object f rval' (skip_whitespace s5)
                          else ScanError
                      | [] => ScanError
                      end
                  | ScanError => ScanError
                  | Exhausted => Exhausted
                  end
                else ScanError
            | [] => ScanError
            end
        | None => ScanError
        end
      else ScanError
  | [] => ScanError
  end.
Proof. reflexivity. Qed.

Lemma parse_array_S (f : nat) (rval : list pyobj) (s : str) :
  parse_array (S f) rval s =
  match scan_once f s with
  | Scanned val s1 =>
      let rval' := rval ++ [val] in
      match skip_whitespace s1 with
      | d :: s2 =>
          if d =? RBRACKET then Scanned rval' s2
          else if d =? COMMA then parse_array f rval' (skip_whitespace s2)
          else ScanError
      | [] => ScanError
      end
  | ScanError => ScanError
  | Exhausted => Exhausted
  end.
Proof. reflexivity. Qed.

Lemma after_cons (c : char) (x R : str) :
  (exists p, x = p ++ R) -> exists p, c :: x = p ++ R.
Proof. intros [p ->]. exists (c :: p). reflexivity. Qed.

Lemma after_app (w x R : str) :
  (exists p, x = p ++ R) -> exists p, w ++ x = p ++ R.
Proof. intros [p ->]. exists (w ++ p). apply app_assoc. Qed.

(** [R] is what is left of a text written as nested [::] and [++]. *)
Ltac solve_suffix :=
  repeat first
    [ exact (ex_intro _ [] eq_refl)
    | apply after_cons
    | apply after_app ].

Ltac split_ws x :=
  let w := fresh "w" in
  let Hw := fresh "Hw" in
  destruct (skip_whitespace_split x) as (w & Hw & _).

Lemma after_first (c : char) (x R : str) :
  (exists p, x = p ++ R) -> exists c0 p, c :: x = c0 :: p ++ R.
Proof. intros [p ->]. exists c, p. reflexivity. Qed.

Lemma nonempty_prefix (s r : str) :
  (exists p, s = p ++ r /\ p <> []) -> exists c p, s = c :: p ++ r.
Proof. intros ([|c p] & -> & Hp); [congruence|]. exists c, p. reflexivity. Qed.

(** What is left after a value, an object or an array is a proper suffix of
    the text scanned; an object ends with its brace, an array with its
    bracket. *)
Lemma scan_split (f : nat) :
  (forall s v r, scan_once f s = Scanned v r -> exists c p, s = c :: p ++ r) /\
  (forall rv s d r, parse_object f rv s = Scanned d r ->
                    exists p, s = p ++ RBRACE :: r) /\
  (forall rv s l r, parse_array f rv s = Scanned l r ->
                    exists p, s = p ++ RBRACKET :: r).
Proof.
  induction f as [|f (IHs & IHo & IHa)]; [repeat split; discriminate|].
  repeat split.
  - intros s v r H. rewrite scan_once_S in H.
    destruct s as [|c s']; [discriminate H|].
    destruct (c =? DQUOTE).
    { destruct (scanstring s') as [[v0 r0]|] eqn:E; [|discriminate H].
      injection H as <- <-. apply scanstring_exact in E.
      destruct E as (p & -> & _). exists c, p. reflexivity. }
    destruct (c =? LBRACE).
    { split_ws s'. destruct (skip_whitespace s') as [|c1 s1]; [discriminate H|].
      apply after_first. subst s'.
      destruct (c1 =? RBRACE).
      - injection H as <- <-. solve_suffix.
      - destruct (parse_object f [] (c1 :: s1)) as [d r0| |] eqn:E;
          try discriminate H.
        injection H as <- <-. apply IHo in E. destruct E as (p & ->).
        apply after_app. exists (p ++ [RBRACE]). rewrite <- app_assoc. reflexivity. }
    destruct (c =? LBRACKET).
    { split_ws s'. destruct (skip_whitespace s') as [|c1 s1]; [discriminate H|].
      apply after_first. subst s'.
      destruct (c1 =? RBRACKET).
      - injection H as <- <-. solve_suffix.
      - destruct (parse_array f [] (c1 :: s1)) as [d r0| |] eqn:E;
          try discriminate H.
        injection H as <- <-. apply IHa in E. destruct E as (p & ->).
        apply after_app. exists (p ++ [RBRACKET]). rewrite <- app_assoc. reflexivity. }
    destruct (match_constant constants (c :: s')) as [[v0 r0]|] eqn:E.
    { injection H as <- <-. apply nonempty_prefix, (match_constant_split _ _ _ E). }
    destruct (match_number (c :: s')) as [[v0 r0]|] eqn:E'; [|discriminate H].
    injection H as <- <-. apply nonempty_prefix, (match_number_split _ _ _ E').
  - intros rv s d r H. rewrite parse_object_S in H.
    destruct s as [|q s1]; [discriminate H|].
    destruct (q =? DQUOTE); [|discriminate H].
    destruct (scanstring s1) as [[key s2]|] eqn:E1; [|discriminate H].
    apply scanstring_exact in E1. destruct E1 as (p1 & -> & _).
    split_ws s2. destruct (skip_whitespace s2) as [|c s3]; [discriminate H|].
    destruct (c =? COLON); [|discriminate H].
    split_ws s3.
    destruct (scan_once f (skip_whitespace s3)) as [val s4| |] eqn:E2;
      try discriminate H.
    apply IHs in E2. destruct E2 as (c2 & p2 & E2). rewrite E2 in *.
    split_ws s4. destruct (skip_whitespace s4) as [|d0 s5]; [discriminate H|].
    subst s2 s3 s4.
    destruct (d0 =? RBRACE) eqn:Ed.
    + injection H as <- <-. apply N.eqb_eq in Ed. subst d0. solve_suffix.
    + destruct (d0 =? COMMA); [|discriminate H].
      split_ws s5. apply IHo in H. destruct H as (p & Hp).
      rewrite Hp in *. subst s5. solve_suffix.
  - intros rv s l r H. rewrite parse_array_S in H.
    destruct (scan_once f s) as [val s1| |] eqn:E1; try discriminate H.
    apply IHs in E1. destruct E1 as (c1 & p1 & ->).
    split_ws s1. destruct (skip_whitespace s1) as [|d0 s2]; [discriminate H|].
    subst s1.
    destruct (d0 =? RBRACKET) eqn:Ed.
    + injection H as <- <-. apply N.eqb_eq in Ed. subst d0. solve_suffix.
    + destruct (d0 =? COMMA); [|discriminate H].
      split_ws s2. apply IHa in H. destruct H as (p & Hp).
      rewrite Hp in *. subst s2. solve_suffix.
Qed.

Lemma scan_once_length (f : nat) (s : str) (v : pyobj) (r : str) :
  scan_once f s = Scanned v r -> (List.length r < List.length s)%nat.
Proof.
  intros H. apply (proj1 (scan_split f)) in H. destruct H as (c & p & ->).
  cbn [List.length]. rewrite length_app. lia.
Qed.

Lemma parse_object_length (f : nat) (rv : dict pyobj) (s : str) (d : dict pyobj) (r : str) :
  parse_object f rv s = Scanned d r -> (List.length r < List.length s)%nat.
Proof.
  intros H. apply (proj1 (proj2 (scan_split f))) in H. destruct H as (p & ->).
  rewrite length_app. cbn [List.length]. lia.
Qed.

Lemma parse_array_length (f : nat) (rv : list pyobj) (s : str) (l : list pyobj) (r : str) :
  parse_array f rv s = Scanned l r -> (List.length r < List.length s)%nat.
Proof.
  intros H. apply (proj2 (proj2 (scan_split f))) in H. destruct H as (p & ->).
  rewrite length_app. cbn [List.length]. lia.
Qed.

Lemma scanstring_length (s v r : str) :
  scanstring s = Some (v, r) -> (List.length r < List.length s)%nat.
Proof.
  intros H. apply scanstring_exact in H. destruct H as ([|c p] & -> & Hp & _);
    [congruence|].
  cbn [app List.length]. rewrite length_app. lia.
Qed.

Lemma skip_whitespace_cons_length (s : str) (c : char) (x : str) :
  skip_whitespace s = c :: x -> (List.length x < List.length s)%nat.
Proof.
  intros H. pose proof (skip_whitespace_length s) as L. rewrite H in L.
  cbn [List.length] in L. lia.
Qed.

Lemma skip_whitespace_trunc_cons (a t : str) (c : char) (x : str) :
  skip_whitespace (a ++ t) = c :: x -> (List.length t <= List.length x)%nat ->
  exists x', x = x' ++ t /\ skip_whitespace a = c :: x'.
Proof.
  intros H Hlen. apply skip_whitespace_trunc in H; [|cbn [List.length]; lia].
  destruct H as ([|c0 x'] & E & H).
  - exfalso. cbn [app] in E. subst t. cbn [List.length] in Hlen. lia.
  - injection E as <- ->. exists x'; auto.
Qed.

(** Compare lengths after writing every [length (a ++ b)] as a sum. *)
Ltac lens := rewrite ?length_app in *; cbn [List.length] in *; lia.

(** Cutting the text inside what a scan leaves behind changes neither the
    value nor, up to the cut, what is left; and the scan of the cut text
    needs no more budget than twice its length. *)
Lemma scan_trunc (f : nat) :
  (forall s t v r',
      scan_once f (s ++ t) = Scanned v r' ->
      (List.length t <= List.length r')%nat ->
      exists r, r' = r ++ t /\
                forall f', (2 * List.length s + 1 <= f')%nat ->
                           scan_once f' s = Scanned v r) /\
  (forall rv s t d r',
      parse_object f rv (s ++ t) = Scanned d r' ->
      (List.length t <= List.length r')%nat ->
      exists r, r' = r ++ t /\
                forall f', (2 * List.length s + 2 <= f')%nat ->
                           parse_object f' rv s = Scanned d r) /\
  (forall rv s t l r',
      parse_array f rv (s ++ t) = Scanned l r' ->
      (List.length t <= List.length r')%nat ->
      exists r, r' = r ++ t /\
                forall f', (2 * List.length s + 2 <= f')%nat ->
                           parse_array f' rv s = Scanned l r).
Proof.
  induction f as [|f (IHs & IHo & IHa)]; [repeat split; discriminate|].
  repeat split.
  - (* a value *)
    intros s t v r' H Hlen. destruct s as [|c s'].
    { exfalso. apply scan_once_length in H. cbn [app] in H. lia. }
    cbn [app] in H. rewrite scan_once_S in H.
    destruct (c =? DQUOTE) eqn:Eq.
    { destruct (scanstring (s' ++ t)) as [[v0 r0]|] eqn:E; [|discriminate H].
      injection H as <- <-.
      destruct (scanstring_trunc _ _ _ _ E Hlen) as (r & -> & E').
      exists r. split; [reflexivity|]. intros [|f'] Hf; [lia|].
      rewrite scan_once_S, Eq, E'. reflexivity. }
    destruct (c =? LBRACE) eqn:El.
    { destruct (skip_whitespace (s' ++ t)) as [|c1 s1] eqn:Ew; [discriminate H|].
      destruct (c1 =? RBRACE) eqn:E1.
      - injection H as <- <-.
        destruct (skip_whitespace_trunc_cons _ _ _ _ Ew Hlen) as (x & -> & Ew').
        exists x. split; [reflexivity|]. intros [|f'] Hf; [lia|].
        rewrite scan_once_S, Eq, El, Ew', E1. reflexivity.
      - destruct (parse_object f [] (c1 :: s1)) as [d r0| |] eqn:E;
          try discriminate H.
        injection H as <- <-. pose proof (parse_object_length _ _ _ _ _ E) as L.
        destruct (skip_whitespace_trunc_cons _ _ _ _ Ew) as (x & -> & Ew');
          [cbn [List.length] in L; lia|].
        change (c1 :: x ++ t) with ((c1 :: x) ++ t) in E.
        destruct (IHo _ _ _ _ _ E Hlen) as (r & -> & Hr).
        exists r. split; [reflexivity|]. intros [|f'] Hf; [lia|].
        pose proof (skip_whitespace_length s') as L'. rewrite Ew' in L'.
        rewrite scan_once_S, Eq, El, Ew', E1, Hr; [reflexivity|].
        cbn [List.length] in *. lia. }
    destruct (c =? LBRACKET) eqn:Ek.
    { destruct (skip_whitespace (s' ++ t)) as [|c1 s1] eqn:Ew; [discriminate H|].
      destruct (c1 =? RBRACKET) eqn:E1.
      - injection H as <- <-.
        destruct (skip_whitespace_trunc_cons _ _ _ _ Ew Hlen) as (x & -> & Ew').
        exists x. split; [reflexivity|]. intros [|f'] Hf; [lia|].
        rewrite scan_once_S, Eq, El, Ek, Ew', E1. reflexivity.
      - destruct (parse_array f [] (c1 :: s1)) as [d r0| |] eqn:E;
          try discriminate H.
        injection H as <- <-. pose proof (parse_array_length _ _ _ _ _ E) as L.
        destruct (skip_whitespace_trunc_cons _ _ _ _ Ew) as (x & -> & Ew');
          [cbn [List.length] in L; lia|].
        change (c1 :: x ++ t) with ((c1 :: x) ++ t) in E.
        destruct (IHa _ _ _ _ _ E Hlen) as (r & -> & Hr).
        exists r. split; [reflexivity|]. intros [|f'] Hf; [lia|].
        pose proof (skip_whitespace_length s') as L'. rewrite Ew' in L'.
        rewrite scan_once_S, Eq, El, Ek, Ew', E1, Hr; [reflexivity|].
        cbn [List.length] in *. lia. }
    change (c :: s' ++ t) with ((c :: s') ++ t) in H.
    destruct (match_constant constants ((c :: s') ++ t)) as [[v0 r0]|] eqn:E.
    { injection H as <- <-.
      destruct (match_constant_trunc _ _ _ _ _ E Hlen) as (r & -> & E').
      exists r. split; [reflexivity|]. intros [|f'] Hf; [lia|].
      rewrite scan_once_S, Eq, El, Ek, E'. reflexivity. }
    destruct (match_number ((c :: s') ++ t)) as [[v0 r0]|] eqn:En;
      [|discriminate H].
    injection H as <- <-.
    destruct (match_number_trunc _ _ _ _ En Hlen) as (r & -> & En').
    exists r. split; [reflexivity|]. intros [|f'] Hf; [lia|].
    rewrite scan_once_S, Eq, El, Ek, (match_constant_none_trunc _ _ _ E), En'.
    reflexivity.
  - (* the items of an object *)
    intros rv s t d r' H Hlen. destruct s as [|q s1].
    { exfalso. apply parse_object_length in H. cbn [app] in H. lia. }
    cbn [app] in H. rewrite parse_object_S in H.
    destruct (q =? DQUOTE) eqn:Eq; [|discriminate H].
    destruct (scanstring (s1 ++ t)) as [[key s2]|] eqn:E1; [|discriminate H].
    destruct (skip_whitespace s2) as [|c s3] eqn:Ew2; [discriminate H|].
    destruct (c =? COLON) eqn:Ec; [|discriminate H].
    destruct (scan_once f (skip_whitespace s3)) as [val s4| |] eqn:E2;
      try discriminate H.
    cbv zeta in H.
    destruct (skip_whitespace s4) as [|d0 s5] eqn:Ew4; [discriminate H|].
    pose proof (scanstring_length _ _ _ E1) as L1.
    pose proof (skip_whitespace_cons_length _ _ _ Ew2) as L2.
    pose proof (scan_once_length _ _ _ _ E2) as L3.
    pose proof (skip_whitespace_length s3) as L3'.
    pose proof (skip_whitespace_cons_length _ _ _ Ew4) as L4.
    assert (L5 : (List.length t <= List.length s5)%nat).
    { destruct (d0 =? RBRACE); [injection H as <- <-; lia|].
      destruct (d0 =? COMMA); [|discriminate H].
      apply parse_object_length in H. pose proof (skip_whitespace_length s5). lia. }
    destruct (scanstring_trunc _ _ _ _ E1) as (s2' & -> & E1'); [lia|].
    destruct (skip_whitespace_trunc_cons _ _ _ _ Ew2) as (s3' & -> & Ew2'); [lia|].
    destruct (skip_whitespace_trunc s3' t _ eq_refl) as (x & Ex & Ew3'); [lia|].
    rewrite Ex in E2, L3.
    destruct (IHs _ _ _ _ E2) as (s4' & -> & Hval); [lia|].
    destruct (skip_whitespace_trunc_cons _ _ _ _ Ew4 L5) as (s5' & -> & Ew4').
    pose proof (skip_whitespace_length s3') as L6. rewrite Ew3' in L6.
    destruct (d0 =? RBRACE) eqn:Ed.
    + injection H as <- <-. exists s5'. split; [reflexivity|].
      intros [|f'] Hf; [lia|].
      rewrite parse_object_S, Eq, E1', Ew2', Ec, Ew3', Hval by lens.
      cbv zeta. rewrite Ew4', Ed. reflexivity.
    + destruct (d0 =? COMMA) eqn:Em; [|discriminate H].
      pose proof (parse_object_length _ _ _ _ _ H) as L7.
      destruct (skip_whitespace_trunc s5' t _ eq_refl) as (y & Ey & Ew5'); [lia|].
      rewrite Ey in H, L7.
      destruct (IHo _ _ _ _ _ H Hlen) as (r & -> & Hr).
      exists r. split; [reflexivity|]. intros [|f'] Hf; [lia|].
      pose proof (skip_whitespace_length s5') as L8. rewrite Ew5' in L8.
      rewrite parse_object_S, Eq, E1', Ew2', Ec, Ew3', Hval by lens.
      cbv zeta. rewrite Ew4', Ed, Em, Ew5'. apply Hr. lens.
  - (* the items of an array *)
    intros rv s t l r' H Hlen. rewrite parse_array_S in H.
    destruct (scan_once f (s ++ t)) as [val s1| |] eqn:E1; try discriminate H.
    cbv zeta in H.
    destruct (skip_whitespace s1) as [|d0 s2] eqn:Ew1; [discriminate H|].
    pose proof (scan_once_length _ _ _ _ E1) as L1.
    pose proof (skip_whitespace_cons_length _ _ _ Ew1) as L2.
    assert (L3 : (List.length t <= List.length s2)%nat).
    { destruct (d0 =? RBRACKET); [injection H as <- <-; lia|].
      destruct (d0 =? COMMA); [|discriminate H].
      apply parse_array_length in H. pose proof (skip_whitespace_length s2). lia. }
    destruct (IHs _ _ _ _ E1) as (s1' & -> & Hval); [lia|].
    destruct (skip_whitespace_trunc_cons _ _ _ _ Ew1 L3) as (s2' & -> & Ew1').
    destruct (d0 =? RBRACKET) eqn:Ed.
    + injection H as <- <-. exists s2'. split; [reflexivity|].
      intros [|f'] Hf; [lia|].
      rewrite parse_array_S, Hval by lia. cbv zeta. rewrite Ew1', Ed. reflexivity.
    + destruct (d0 =? COMMA) eqn:Em; [|discriminate H].
      pose proof (parse_array_length _ _ _ _ _ H) as L4.
      destruct (skip_whitespace_trunc s2' t _ eq_refl) as (y & Ey & Ew2'); [lia|].
      rewrite Ey in H, L4.
      destruct (IHa _ _ _ _ _ H Hlen) as (r & -> & Hr).
      exists r. split; [reflexivity|]. intros [|f'] Hf; [lia|].
      pose proof (skip_whitespace_length s2') as L5. rewrite Ew2' in L5.
      rewrite parse_array_S, Hval by lia. cbv zeta.
      rewrite Ew1', Ed, Em, Ew2'. apply Hr. lens.
Qed.

(** A budget of twice the length of the text (and one more for a value) is
    never used up: the decoder always ends with a value or an error. *)
Lemma scan_fuel (f : nat) :
  (forall s, (2 * List.length s + 1 <= f)%nat -> scan_once f s <> Exhausted) /\
  (forall rv s, (2 * List.length s + 2 <= f)%nat ->
                parse_object f rv s <> Exhausted) /\
  (forall rv s, (2 * List.length s + 2 <= f)%nat ->
                parse_array f rv s <> Exhausted).
Proof.
  induction f as [|f (IHs & IHo & IHa)]; [repeat split; intros; lia|].
  repeat split.
  - intros s Hf. rewrite scan_once_S. destruct s as [|c s']; [discriminate|].
    pose proof (skip_whitespace_length s') as L. cbn [List.length] in Hf.
    destruct (c =? DQUOTE).
    { destruct (scanstring s') as [[v r]|]; discriminate. }
    destruct (c =? LBRACE).
    { destruct (skip_whitespace s') as [|c1 s1]; [discriminate|].
      destruct (c1 =? RBRACE); [discriminate|].
      destruct (parse_object f [] (c1 :: s1)) eqn:E; try discriminate.
      exfalso. apply (IHo [] (c1 :: s1)); [lia|exact E]. }
    destruct (c =? LBRACKET).
    { destruct (skip_whitespace s') as [|c1 s1]; [discriminate|].
      destruct (c1 =? RBRACKET); [discriminate|].
      destruct (parse_array f [] (c1 :: s1)) eqn:E; try discriminate.
      exfalso. apply (IHa [] (c1 :: s1)); [lia|exact E]. }
    destruct (match_constant constants (c :: s')) as [[v r]|]; [discriminate|].
    destruct (match_number (c :: s')) as [[v r]|]; discriminate.
  - intros rv s Hf. rewrite parse_object_S. destruct s as [|q s1]; [discriminate|].
    cbn [List.length] in Hf.
    destruct (q =? DQUOTE); [|discriminate].
    destruct (scanstring s1) as [[key s2]|] eqn:E1; [|discriminate].
    apply scanstring_length in E1.
    destruct (skip_whitespace s2) as [|c s3] eqn:Ew2; [discriminate|].
    apply skip_whitespace_cons_length in Ew2.
    destruct (c =? COLON); [|discriminate].
    pose proof (skip_whitespace_length s3) as L3.
    destruct (scan_once f (skip_whitespace s3)) as [val s4| |] eqn:E2;
      [|discriminate|exfalso; apply (IHs (skip_whitespace s3)); [lia|exact E2]].
    apply scan_once_length in E2. cbv zeta.
    destruct (skip_whitespace s4) as [|d0 s5] eqn:Ew4; [discriminate|].
    apply skip_whitespace_cons_length in Ew4.
    destruct (d0 =? RBRACE); [discriminate|].
    destruct (d0 =? COMMA); [|discriminate].
    pose proof (skip_whitespace_length s5). apply IHo. lia.
  - intros rv s Hf. rewrite parse_array_S.
    destruct (scan_once f s) as [val s1| |] eqn:E1;
      [|discriminate|exfalso; apply (IHs s); [lia|exact E1]].
    apply scan_once_length in E1. cbv zeta.
    destruct (skip_whitespace s1) as [|d0 s2] eqn:Ew1; [discriminate|].
    apply skip_whitespace_cons_length in Ew1.
    destruct (d0 =? RBRACKET); [discriminate|].
    destruct (d0 =? COMMA); [|discriminate].
    pose proof (skip_whitespace_length s2). apply IHa. lia.
Qed.

(** [json_loads] gives its scan enough budget: [None] always stands for a
    decoding error. *)
Lemma json_loads_budget (s : str) :
  scan_once (2 * List.length s + 1) (skip_whitespace s) <> Exhausted.
Proof.
  apply (proj1 (scan_fuel _)). pose proof (skip_whitespace_length s). lia.
Qed.

(** A scanned object stands between its braces. *)
Lemma scan_once_dict_shape (f : nat) (s : str) (d : dict pyobj) (r : str) :
  scan_once f s = Scanned (PyDict d) r ->
  exists body, s = LBRACE :: body ++ RBRACE :: r.
Proof.
  destruct f as [|f]; [discriminate|]. rewrite scan_once_S.
  destruct s as [|c s']; [discriminate|].
  destruct (c =? DQUOTE).
  { destruct (scanstring s') as [[v r0]|]; discriminate. }
  destruct (c =? LBRACE) eqn:El.
  { apply N.eqb_eq in El. subst c. split_ws s'.
    destruct (skip_whitespace s') as [|c1 s1]; [discriminate|]. subst s'.
    destruct (c1 =? RBRACE) eqn:E1.
    - apply N.eqb_eq in E1. subst c1. intros [= <- <-]. exists w. reflexivity.
    - destruct (parse_object f [] (c1 :: s1)) as [d0 r0| |] eqn:E; try discriminate.
      intros [= <- <-]. apply (proj1 (proj2 (scan_split f))) in E.
      destruct E as (p & ->). exists (w ++ p). rewrite <- app_assoc. reflexivity. }
  destruct (c =? LBRACKET).
  { destruct (skip_whitespace s') as [|c1 s1]; [discriminate|].
    destruct (c1 =? RBRACKET); [discriminate|].
    destruct (parse_array f [] (c1 :: s1)); discriminate. }
  destruct (match_constant constants (c :: s')) as [[v r0]|] eqn:E.
  { intros [= -> ->]. exfalso. exact (match_constant_not_dict _ _ _ E). }
  destruct (match_number (c :: s')) as [[v r0]|] eqn:En; [|discriminate].
  intros [= -> ->]. exfalso. exact (match_number_not_dict _ _ _ En).
Qed.

Lemma skip_whitespace_nil (r : str) : skip_whitespace r = [] -> json_space r = true.
Proof.
  intros H. destruct (skip_whitespace_split r) as (w & E & Hw).
  rewrite H, app_nil_r in E. subst w. exact Hw.
Qed.

(** A text that decodes to an object is that object's text, from brace to
    brace, with JSON white space around it; and the object's text alone
    decodes to the same object. *)
Lemma json_loads_object_shape (s : str) (d : dict pyobj) :
  json_loads s = Some (PyDict d) ->
  exists w1 body w2,
    s = w1 ++ (LBRACE :: body ++ [RBRACE]) ++ w2 /\
    json_space w1 = true /\ json_space w2 = true /\
    json_loads (LBRACE :: body ++ [RBRACE]) = Some (PyDict d).
Proof.
  unfold json_loads at 1. destruct s as [|c0 s0] eqn:Es; [discriminate|].
  destruct (c0 =? BOM); [discriminate|]. rewrite <- Es. clear Es c0 s0.
  destruct (skip_whitespace_split s) as (w1 & E1 & Hw1).
  destruct (scan_once (2 * List.length s + 1) (skip_whitespace s))
    as [v r| |] eqn:E; try discriminate.
  destruct (skip_whitespace r) as [|x y] eqn:Er; [|discriminate].
  intros [= ->]. apply skip_whitespace_nil in Er.
  destruct (scan_once_dict_shape _ _ _ _ E) as (body & Eb).
  exists w1, body, r. rewrite E1 at 1. rewrite Eb.
  split; [cbn [app]; rewrite <- app_assoc; reflexivity|]. split; [exact Hw1|].
  split; [exact Er|].
  rewrite Eb in E.
  change (LBRACE :: body ++ RBRACE :: r)
    with ((LBRACE :: body) ++ [RBRACE] ++ r) in E.
  rewrite app_assoc in E.
  destruct (proj1 (scan_trunc _) _ _ _ _ E (le_n _)) as (r0 & Hr0 & Hscan).
  assert (r0 = []) as ->.
  { destruct r0; [reflexivity|]. by_length Hr0. }
  unfold json_loads. cbn [app].
  change (LBRACE =? BOM) with false. cbv iota.
  change (skip_whitespace (LBRACE :: body ++ [RBRACE]))
    with (LBRACE :: body ++ [RBRACE]).
  specialize (Hscan _ (le_n _)).
  change ((LBRACE :: body) ++ [RBRACE]) with (LBRACE :: body ++ [RBRACE]) in Hscan.
  rewrite Hscan. reflexivity.
Qed.

Lemma json_space_all_space (w : str) : json_space w = true -> all_space w = true.
Proof.
  induction w as [|c w IH]; [reflexivity|]. cbn [json_space all_space forallb].
  rewrite !andb_true_iff. intros [Hc Hw]. split; [|exact (IH Hw)].
  unfold IS_WHITESPACE in Hc. rewrite !orb_true_iff, !N.eqb_eq in Hc.
  destruct Hc as [[[->| ->]| ->]| ->]; reflexivity.
Qed.

(** ** Cleaning a reply that is already a JSON object *)

Lemma closing_needs_fence (bol : bool) (x : str) (z : char) (r : str) :
  match_seq closing bol (x ++ [z]) = Some r -> z = BACKTICK \/ z = NEWLINE.
Proof.
  intros H. apply closing_inv in H. destruct H as (w & _ & E & Hr).
  destruct r as [|n [|? ?]]; try discriminate Hr.
  - left. rewrite app_nil_r in E.
    change (lit "```") with (lit "``" ++ [BACKTICK]) in E.
    rewrite app_assoc in E. apply app_inj_tail in E. tauto.
  - right. cbn [at_end] in Hr. apply N.eqb_eq in Hr. subst n.
    rewrite !app_assoc in E. apply app_inj_tail in E. tauto.
Qed.

Lemma re_sub_scan_plain (u : str) (z : char) :
  z <> BACKTICK -> z <> NEWLINE ->
  re_sub_scan fence_pattern false 0 (u ++ [z]) = u ++ [z].
Proof.
  intros H1 H2.
  assert (Hno : forall x, match_alt fence_pattern false (x ++ [z]) = None).
  { intros x. unfold fence_pattern, match_alt. rewrite opening_not_inside.
    destruct (match_seq closing false (x ++ [z])) eqn:E; [|reflexivity].
    apply closing_needs_fence in E. tauto. }
  induction u as [|c u IH]; cbn [app].
  - rewrite re_sub_scan_keep; [reflexivity|exact (Hno [])].
  - rewrite re_sub_scan_keep; [rewrite IH; reflexivity|exact (Hno (c :: u))].
Qed.

(** The text of a JSON object, which starts and ends with a brace, goes
    through the cleaning step unchanged, whatever white space is around it. *)
Lemma clean_response_object_text (w1 body w2 : str) :
  all_space w1 = true -> all_space w2 = true ->
  clean_response (w1 ++ (LBRACE :: body ++ [RBRACE]) ++ w2) =
  LBRACE :: body ++ [RBRACE].
Proof.
  intros H1 H2. unfold clean_response, re_sub_empty.
  rewrite strip_between; try assumption.
  2:{ reflexivity. }
  2:{ change (LBRACE :: body ++ [RBRACE]) with ((LBRACE :: body) ++ [RBRACE]).
      apply rstrip_snoc. reflexivity. }
  rewrite re_sub_scan_keep.
  - rewrite re_sub_scan_plain by discriminate. reflexivity.
  - unfold fence_pattern, match_alt.
    change (match_seq opening true (LBRACE :: body ++ [RBRACE])) with (@None str).
    change (LBRACE :: body ++ [RBRACE]) with ((LBRACE :: body) ++ [RBRACE]).
    destruct (match_seq closing true ((LBRACE :: body) ++ [RBRACE])) eqn:E;
      [|reflexivity].
    apply closing_needs_fence in E. destruct E; discriminate.
Qed.

(** Hence a reply that decodes to an object decodes to the same object after
    the cleaning step. *)
Lemma json_loads_clean_response (response_text : str) (d : dict pyobj) :
  json_loads response_text = Some (PyDict d) ->
  json_loads (clean_response response_text) = Some (PyDict d).
Proof.
  intros H. apply json_loads_object_shape in H.
  destruct H as (w1 & body & w2 & -> & H1 & H2 & H).
  rewrite clean_response_object_text by (apply json_space_all_space; assumption).
  exact H.
Qed.

(** ** Dictionaries *)


Lemma dict_get_setitem_neq {V : Type} (k k0 : str) (v : V) (d : dict V) :
  k0 <> k -> dict_get k0 (dict_setitem k v d) = dict_get k0 d.
Proof.
  intros Hne. induction d as [|[k' v'] d IH]; cbn [dict_setitem dict_get].
  - apply str_eqb_neq in Hne. rewrite Hne. reflexivity.
  - destruct (str_eqb k k') eqn:E; cbn [dict_get].
    + apply str_eqb_eq in E. subst k'. apply str_eqb_neq in Hne. rewrite Hne.
      reflexivity.
    + rewrite IH. reflexivity.
Qed.


Lemma dict_keys_setitem {V : Type} (k : str) (v : V) (d : dict V) :
  dict_keys (dict_setitem k v d) =
  if existsb (str_eqb k) (dict_keys d) then dict_keys d else dict_keys d ++ [k].
Proof.
  unfold dict_keys. induction d as [|[k' v'] d IH]; [reflexivity|].
  cbn [dict_setitem map fst existsb].
  destruct (str_eqb k k') eqn:E; cbn [map fst orb]; [reflexivity|].
  rewrite IH. destruct (existsb (str_eqb k) (map fst d)); reflexivity.
Qed.

(** Assignment keeps the keys of a dictionary distinct. *)
Lemma dict_setitem_NoDup {V : Type} (k : str) (v : V) (d : dict V) :
  NoDup (dict_keys d) -> NoDup (dict_keys (dict_setitem k v d)).
Proof.
  intros H. rewrite dict_keys_setitem.
  destruct (existsb (str_eqb k) (dict_keys d)) eqn:E; [exact H|].
  apply NoDup_app; [exact H|repeat constructor; intros []|].
  intros x Hx [->|[]].
  assert (existsb (str_eqb x) (dict_keys d) = true); [|congruence].
  apply existsb_exists. exists x. split; [exact Hx|apply str_eqb_refl].
Qed.


(** ** Validation *)

Lemma validate_items_strings (field : str) (i : nat) (l : list str) :
  validate_items field i (map PyStr l) = ([], l).
Proof.
  revert i; induction l as [|x l IH]; intros i; cbn [map validate_items];
    [reflexivity|].
  rewrite IH. reflexivity.
Qed.

Lemma validate_items_errors (field : str) (i : nat) (l : list pyobj) :
  forallb is_str l = false -> fst (validate_items field i l) <> [].
Proof.
  revert i; induction l as [|x l IH]; intros i; cbn [forallb validate_items];
    [discriminate|].
  destruct (validate_items field (S i) l) as [errs vs] eqn:E.
  destruct x; cbn [is_str andb fst]; try discriminate.
  intros H. specialize (IH (S i) H). rewrite E in IH. exact IH.
Qed.

Lemma validate_items_inv (field : str) (i : nat) (l : list pyobj) (vs : list str) :
  validate_items field i l = ([], vs) -> l = map PyStr vs.
Proof.
  revert i vs; induction l as [|x l IH]; intros i vs; cbn [validate_items].
  - intros [= <-]. reflexivity.
  - destruct (validate_items field (S i) l) as [errs vs'] eqn:E.
    destruct x; try discriminate. intros [= -> <-].
    cbn [map]. rewrite (IH _ _ E). reflexivity.
Qed.

Lemma validate_str_ok (field : str) (d : dict pyobj) (s : str) :
  validate_str field d = inr s <-> dict_get field d = Some (PyStr s).
Proof.
  unfold validate_str. destruct (dict_get field d) as [[]|]; split; congruence.
Qed.

Lemma validate_list_str_ok (field : str) (d : dict pyobj) (l : list str) :
  validate_list_str field d = inr l <->
  dict_get field d = Some (PyList (map PyStr l)).
Proof.
  unfold validate_list_str. destruct (dict_get field d) as [v|]; [|split; discriminate].
  destruct v; try (split; discriminate).
  destruct (validate_items field 0 l0) as [errs vs] eqn:E. split.
  - destruct errs; [|discriminate]. intros [= ->].
    rewrite (validate_items_inv _ _ _ _ E). reflexivity.
  - intros [= ->]. rewrite validate_items_strings in E. injection E as <- <-.
    reflexivity.
Qed.

Lemma validate_str_fails (field : str) (d : dict pyobj) :
  field_ok is_str field d = false -> exists errs, validate_str field d = inl errs.
Proof.
  unfold field_ok, validate_str. destruct (dict_get field d) as [[]|]; eauto.
  discriminate.
Qed.

Lemma validate_list_str_fails (field : str) (d : dict pyobj) :
  field_ok is_list_of_str field d = false ->
  exists errs, validate_list_str field d = inl errs.
Proof.
  unfold field_ok, validate_list_str. destruct (dict_get field d) as [[]|]; eauto.
  cbn [is_list_of_str]. intros H.
  pose proof (validate_items_errors field 0 l H) as He.
  destruct (validate_items field 0 l) as [[|e errs] vs]; [|eauto].
  cbn [fst] in He. congruence.
Qed.

(** An object that has the five fields with the declared types is accepted,
    and the record holds exactly the decoded values. *)
Lemma model_validate_conforms (d : dict pyobj) (info : WordInfo) :
  conforms d info -> model_validate (PyDict d) = inr info.
Proof.
  destruct info as [m o w t p]. unfold conforms. cbn [meaning opposites
    similar_words sentences image_prompt]. intros (Hm & Ho & Hw & Ht & Hp).
  apply validate_str_ok in Hm, Hp. apply validate_list_str_ok in Ho, Hw, Ht.
  unfold model_validate. rewrite Hm, Ho, Hw, Ht, Hp. reflexivity.
Qed.

(** Conversely, a record is built only from such an object. *)
Lemma model_validate_inv (obj : pyobj) (info : WordInfo) :
  model_validate obj = inr info -> exists d, obj = PyDict d /\ conforms d info.
Proof.
  destruct obj; try discriminate. unfold model_validate. intros H.
  exists d. split; [reflexivity|].
  destruct (validate_str (lit "meaning") d) as [?|m] eqn:Hm.
  { destruct (validate_list_str (lit "opposites") d),
      (validate_list_str (lit "similar_words") d),
      (validate_list_str (lit "sentences") d),
      (validate_str (lit "image_prompt") d); discriminate H. }
  destruct (validate_list_str (lit "opposites") d) as [?|o] eqn:Ho.
  { destruct (validate_list_str (lit "similar_words") d),
      (validate_list_str (lit "sentences") d),
      (validate_str (lit "image_prompt") d); discriminate H. }
  destruct (validate_list_str (lit "similar_words") d) as [?|w] eqn:Hw.
  { destruct (validate_list_str (lit "sentences") d),
      (validate_str (lit "image_prompt") d); discriminate H. }
  destruct (validate_list_str (lit "sentences") d) as [?|t] eqn:Ht.
  { destruct (validate_str (lit "image_prompt") d); discriminate H. }
  destruct (validate_str (lit "image_prompt") d) as [?|p] eqn:Hp;
    [discriminate H|].
  injection H as <-. unfold conforms. cbn [meaning opposites similar_words
    sentences image_prompt].
  apply validate_str_ok in Hm, Hp. apply validate_list_str_ok in Ho, Hw, Ht.
  auto.
Qed.

(** An object in which one field is missing or has the wrong type is
    rejected. *)
Lemma model_validate_rejects (d : dict pyobj) :
  well_typed d = false -> exists errs, model_validate (PyDict d) = inl errs.
Proof.
  intros H. destruct (model_validate (PyDict d)) as [errs|info] eqn:E; [eauto|].
  exfalso. apply model_validate_inv in E. destruct E as (d' & [= <-] & Hc).
  destruct Hc as (Hm & Ho & Hw & Ht & Hp).
  unfold well_typed, schema, field_ok in H. cbn [forallb fst snd] in H.
  rewrite Hm, Ho, Hw, Ht, Hp in H. cbn [is_str is_list_of_str] in H.
  assert (Hs : forall l, forallb is_str (map PyStr l) = true)
    by (induction l; [reflexivity|assumption]).
  rewrite !Hs in H. discriminate H.
Qed.

(** ** The monad: how [bind] and [try_except] run *)

Lemma bind_raised {A B : Type} (m : M A) (k : A -> M B) (h : history_t) (e : exn) :
  result (m h) = inl e ->
  bind m k h = mkOutcome (trace (m h)) (history (m h)) (inl e).
Proof. intros H. unfold bind. rewrite H. reflexivity. Qed.

Lemma bind_returned {A B : Type} (m : M A) (k : A -> M B) (h : history_t) (a : A) :
  result (m h) = inr a ->
  bind m k h =
  mkOutcome (trace (m h) ++ trace (k a (history (m h))))
            (history (k a (history (m h))))
            (result (k a (history (m h)))).
Proof. intros H. unfold bind. rewrite H. reflexivity. Qed.

Lemma try_except_caught {A : Type} (body : M A) (catches : exn -> bool)
  (handler : exn -> M A) (h : history_t) (e : exn) :
  result (body h) = inl e -> catches e = true ->
  try_except body catches handler h =
  mkOutcome (trace (body h) ++ trace (handler e (history (body h))))
            (history (handler e (history (body h))))
            (result (handler e (history (body h)))).
Proof. intros H Hc. unfold try_except. rewrite H, Hc. reflexivity. Qed.

Lemma try_except_returned {A : Type} (body : M A) (catches : exn -> bool)
  (handler : exn -> M A) (h : history_t) (a : A) :
  result (body h) = inr a -> try_except body catches handler h = body h.
Proof. intros H. unfold try_except. rewrite H. reflexivity. Qed.

(** ** Runs of the script's functions *)

Section Runs.

Variable str_lower : str -> str.
Variable llm_invoke : str -> exn + str.
Variable requests_get : str -> exn + N.

(** A lookup whose model call returns: three events, then the validation
    decides between the record and the format error. *)
Lemma get_word_details_returned (word response_text : str) (h : history_t) :
  llm_invoke (build_prompt word) = inr response_text ->
  get_word_details llm_invoke word h =
  let text := clean_response response_text in
  mkOutcome
    ([ModelCall (build_prompt word);
      Log (RawResponse word response_text);
      Log (CleanedResponse word text)] ++
     match parse_raw text with
     | inr _ => []
     | inl errors => [Log (ValidationFailed word (ValidationError errors))]
     end)
    h
    (match parse_raw text with
     | inr data => inr data
     | inl _ => inl format_error
     end).
Proof.
  intros H. unfold get_word_details, bind, emit, lift, try_except.
  rewrite H. cbn [trace history result ret raise].
  destruct (parse_raw (clean_response response_text)); reflexivity.
Qed.

(** A lookup whose model call raises lets the exception through. *)
Lemma get_word_details_raised (word : str) (e : exn) (h : history_t) :
  llm_invoke (build_prompt word) = inl e ->
  get_word_details llm_invoke word h =
  mkOutcome [ModelCall (build_prompt word)] h (inl e).
Proof.
  intros H. unfold get_word_details, bind, emit, lift.
  rewrite H. reflexivity.
Qed.

(** A lookup does not touch the history. *)
Lemma get_word_details_history (word : str) (h : history_t) :
  history (get_word_details llm_invoke word h) = h.
Proof.
  destruct (llm_invoke (build_prompt word)) as [e|response_text] eqn:E.
  - rewrite (get_word_details_raised _ _ _ E). reflexivity.
  - rewrite (get_word_details_returned _ _ _ E). reflexivity.
Qed.

(** The image locator: one outbound call, no exception, no change to the
    history. *)
Lemma get_image_for_word_run (description : str) (h : history_t) :
  get_image_for_word requests_get description h =
  let url := image_url_of description in
  match requests_get url with
  | inr status_code =>
      mkOutcome [ImageCall url] h
        (inr (if status_code =? 200 then Some url else None))
  | inl e => mkOutcome [ImageCall url; Log (ImageFetchFailed e)] h (inr None)
  end.
Proof.
  unfold get_image_for_word, try_except, bind, emit, lift.
  destruct (requests_get (image_url_of description)) as [e|status_code].
  - reflexivity.
  - cbn [trace history result ret raise].
    destruct (status_code =? 200); reflexivity.
Qed.

(** The handler on blank input. *)
Lemma explore_word_blank (word : str) (h : history_t) :
  strip word = [] ->
  explore_word str_lower llm_invoke requests_get word h =
  mkOutcome [Warning (lit "Please enter a word first!")] h (inr tt).
Proof. intros H. unfold explore_word. rewrite H. reflexivity. Qed.

(** The handler when the lookup raises: the error box and the log record,
    and the history as it was. *)
Lemma explore_word_failed (word : str) (e : exn) (h : history_t) :
  strip word <> [] ->
  let w := str_lower (strip word) in
  result (get_word_details llm_invoke w h) = inl e ->
  explore_word str_lower llm_invoke requests_get word h =
  mkOutcome
    (trace (get_word_details llm_invoke w h) ++
     [ErrorBox (lit "Oops! Something went wrong. Please try again.");
      Log (ErrorProcessing w e)])
    h (inr tt).
Proof.
  intros Hne. cbv zeta. intros H. unfold explore_word.
  destruct (strip word) as [|c s] eqn:Es; [congruence|].
  erewrite try_except_caught;
    [|rewrite (bind_raised _ _ _ _ H); reflexivity|reflexivity].
  rewrite (bind_raised _ _ _ _ H). cbn [trace history].
  rewrite get_word_details_history. reflexivity.
Qed.

(** The handler when the lookup returns a record: the record's dictionary
    is stored under the normalized word. *)
Lemma explore_word_succeeded (word : str) (info : WordInfo) (h : history_t) :
  strip word <> [] ->
  let w := str_lower (strip word) in
  result (get_word_details llm_invoke w h) = inr info ->
  history (explore_word str_lower llm_invoke requests_get word h) =
    dict_setitem w (WordInfo_dict info) h /\
  result (explore_word str_lower llm_invoke requests_get word h) = inr tt.
Proof.
  intros Hne. cbv zeta. intros H. unfold explore_word.
  destruct (strip word) as [|c s] eqn:Es; [congruence|].
  assert (Hrest :
    forall k : WordInfo -> M unit,
      (forall i h0, history (k i h0) = dict_setitem (str_lower (c :: s)) (WordInfo_dict i) h0
                    /\ result (k i h0) = inr tt) ->
      history (bind (get_word_details llm_invoke (str_lower (c :: s))) k h)
        = dict_setitem (str_lower (c :: s)) (WordInfo_dict info) h /\
      result (bind (get_word_details llm_invoke (str_lower (c :: s))) k h) = inr tt).
  { intros k Hk. rewrite (bind_returned _ _ _ _ H). cbn [history result].
    rewrite get_word_details_history. apply Hk. }
  match goal with
  | |- context [try_except (bind _ ?k) _ _ h] =>
      assert (Hk : forall i h0,
                 history (k i h0)
                 = dict_setitem (str_lower (c :: s)) (WordInfo_dict i) h0 /\
                 result (k i h0) = inr tt)
  end.
  { intros i h0. pose proof (get_image_for_word_run (image_prompt i) h0) as Hrun.
    cbv zeta in Hrun. unfold bind, get_history, set_history, emit.
    destruct (requests_get (image_url_of (image_prompt i)));
      rewrite Hrun; cbn [trace history result]; auto. }
  destruct (Hrest _ Hk) as [Hh Hr].
  rewrite (try_except_returned _ _ _ _ _ Hr). auto.
Qed.

End Runs.

(** ** What [strip] removes and what it leaves *)

Lemma lstrip_idem (s : str) : lstrip (lstrip s) = lstrip s.
Proof.
  induction s as [|c s IH]; [reflexivity|]. cbn [lstrip].
  destruct (Py_UNICODE_ISSPACE c) eqn:E; [exact IH|].
  cbn [lstrip]. rewrite E. reflexivity.
Qed.

Lemma rstrip_idem (s : str) : rstrip (rstrip s) = rstrip s.
Proof.
  induction s as [|c s IH]; [reflexivity|]. cbn [rstrip].
  destruct (rstrip s) as [|x r] eqn:E.
  - destruct (Py_UNICODE_ISSPACE c) eqn:Ec; [reflexivity|].
    cbn [rstrip]. rewrite Ec. reflexivity.
  - change (rstrip (c :: x :: r)) with
      (match rstrip (x :: r) with
       | [] => if Py_UNICODE_ISSPACE c then [] else [c]
       | y :: r' => c :: y :: r'
       end).
    rewrite IH. reflexivity.
Qed.

Lemma rstrip_split (s : str) : exists w, s = rstrip s ++ w /\ all_space w = true.
Proof.
  induction s as [|c s (w & IH & Hw)]; [exists []; auto|]. cbn [rstrip].
  destruct (rstrip s) as [|x r] eqn:E.
  - cbn [app] in IH. subst s. destruct (Py_UNICODE_ISSPACE c) eqn:Ec.
    + exists (c :: w). cbn [app all_space forallb]. rewrite Ec. auto.
    + exists w. auto.
  - exists w. rewrite IH at 1. auto.
Qed.

Lemma rstrip_lstrip (s : str) : rstrip s = s -> rstrip (lstrip s) = lstrip s.
Proof.
  induction s as [|c s IH]; [reflexivity|]. intros H. cbn [lstrip].
  destruct (Py_UNICODE_ISSPACE c); [|exact H].
  apply IH. exact (rstrip_tail _ _ H).
Qed.

(** A text is white space, its stripped form, white space; and the stripped
    form has no white space at either end. *)
Lemma strip_split (s : str) :
  exists lw tw, s = lw ++ strip s ++ tw /\
                all_space lw = true /\ all_space tw = true.
Proof.
  destruct (rstrip_split s) as (tw & Hs & Htw).
  destruct (lstrip_split (rstrip s)) as (lw & Hr & Hlw).
  exists lw, tw. unfold strip. rewrite app_assoc, <- Hr, <- Hs. auto.
Qed.

Lemma strip_tight (s : str) :
  lstrip (strip s) = strip s /\ rstrip (strip s) = strip s.
Proof.
  unfold strip. split; [apply lstrip_idem|].
  apply rstrip_lstrip, rstrip_idem.
Qed.

Lemma strip_fixed (s : str) : lstrip s = s -> rstrip s = s -> strip s = s.
Proof. intros Hl Hr. unfold strip. rewrite Hr. exact Hl. Qed.

(** A json fence around a payload that has no white space at either end is
    removed, and the payload is what is left. *)
Lemma clean_json_fence (w0 w1 w2 w3 payload : str) :
  all_space w0 = true -> all_space w1 = true ->
  all_space w2 = true -> all_space w3 = true ->
  lstrip payload = payload -> rstrip payload = payload ->
  clean_response
    (w0 ++ (lit "```json" ++ w1 ++ payload ++ w2 ++ lit "```") ++ w3) = payload.
Proof.
  intros H0 H1 H2 H3 Hl Hr. unfold clean_response, re_sub_empty.
  rewrite strip_between; try assumption.
  2:{ reflexivity. }
  2:{ rewrite !app_assoc. apply rstrip_closing. }
  destruct (lstrip_split (w1 ++ payload ++ w2 ++ lit "```")) as (u & Hu & _).
  pose proof (opening_match (w1 ++ payload ++ w2 ++ lit "```")) as Hm.
  rewrite Hu at 1. rewrite Hu in Hm at 1.
  change (lit "```json" ++ u ++ ?r) with ((BACKTICK :: lit "``json" ++ u) ++ r) in *.
  rewrite (re_sub_scan_match _ _ _ _ _ Hm).
  rewrite (lstrip_space _ _ H1).
  destruct (lstrip_before_closing payload w2 Hl H2) as (w & Hw & ->).
  apply scan_body; assumption.
Qed.

(** ** A fence without the tag *)

(** A fence without the json tag: the opening alternative does not match
    it, so the three backticks stay and only the closing fence goes. *)
Lemma clean_bare_fence (payload : str) :
  clean_response (lit "```" ++ NEWLINE :: payload ++ NEWLINE :: lit "```")
  = lit "```" ++ rstrip (NEWLINE :: payload).
Proof.
  unfold clean_response, re_sub_empty.
  pose proof (strip_between [] []
                (lit "```" ++ NEWLINE :: payload ++ NEWLINE :: lit "```")) as Hs.
  rewrite app_nil_r in Hs. cbn [app] in Hs. cbn [app]. rewrite Hs; clear Hs;
    try reflexivity.
  2:{ replace (lit "```" ++ NEWLINE :: payload ++ NEWLINE :: lit "```")
        with ((lit "```" ++ NEWLINE :: payload ++ [NEWLINE]) ++ lit "```").
      - apply rstrip_closing.
      - rewrite <- app_assoc. cbn [app]. rewrite <- app_assoc. reflexivity. }
  change (lit "```" ++ ?x) with (BACKTICK :: BACKTICK :: BACKTICK :: x).
  assert (Hend : at_end (NEWLINE :: payload ++ NEWLINE :: lit "```") = false)
    by (destruct payload; reflexivity).
  rewrite re_sub_scan_keep.
  2:{ unfold fence_pattern, match_alt.
      change (match_seq opening true
                (BACKTICK :: BACKTICK :: BACKTICK :: NEWLINE :: payload
                   ++ NEWLINE :: lit "```")) with (@None str).
      rewrite match_seq_closing. cbn [star_space].
      change (Py_UNICODE_ISSPACE BACKTICK) with false. cbv iota.
      unfold closing_tail.
      change (strip_prefix (lit "```")
                (BACKTICK :: BACKTICK :: BACKTICK :: NEWLINE :: payload
                   ++ NEWLINE :: lit "```"))
        with (Some (NEWLINE :: payload ++ NEWLINE :: lit "```")).
      cbv iota. rewrite Hend. reflexivity. }
  rewrite re_sub_scan_keep by reflexivity.
  rewrite re_sub_scan_keep by reflexivity.
  f_equal. f_equal. f_equal.
  destruct (rstrip_split (NEWLINE :: payload)) as (tw & Ht & Htw).
  change (NEWLINE :: payload ++ NEWLINE :: lit "```")
    with ((NEWLINE :: payload) ++ [NEWLINE] ++ lit "```").
  rewrite Ht at 1. rewrite <- app_assoc, (app_assoc tw).
  apply scan_body; [apply rstrip_idem|].
  rewrite all_space_app, Htw. reflexivity.
Qed.

(** Nothing that starts with a backtick is JSON: a reply in such a fence is
    rejected. *)
Lemma backtick_is_not_json (x : str) : json_loads (BACKTICK :: x) = None.
Proof.
  unfold json_loads. change (BACKTICK =? BOM) with false. cbv iota.
  rewrite Nat.add_1_r.
  change (skip_whitespace (BACKTICK :: x)) with (BACKTICK :: x).
  rewrite scan_once_S. reflexivity.
Qed.

Lemma bare_fence_is_rejected (payload : str) :
  parse_raw
    (clean_response (lit "```" ++ NEWLINE :: payload ++ NEWLINE :: lit "```"))
  = inl [JsonInvalid].
Proof.
  rewrite clean_bare_fence. unfold parse_raw.
  change (lit "```" ++ ?x) with (BACKTICK :: BACKTICK :: BACKTICK :: x).
  rewrite backtick_is_not_json. reflexivity.
Qed.

(** ** The script keeps the keys of the history distinct *)

Lemma explore_word_NoDup (str_lower : str -> str) (llm_invoke : str -> exn + str)
  (requests_get : str -> exn + N) (word : str) (h : history_t) :
  NoDup (dict_keys h) ->
  NoDup (dict_keys (history (explore_word str_lower llm_invoke requests_get word h))).
Proof.
  intros H. destruct (strip word) as [|c s] eqn:Es.
  - rewrite explore_word_blank by exact Es. exact H.
  - assert (Hne : strip word <> []) by congruence.
    destruct (result (get_word_details llm_invoke (str_lower (strip word)) h))
      as [e|info] eqn:E.
    + rewrite (explore_word_failed _ _ _ _ _ _ Hne E). exact H.
    + destruct (explore_word_succeeded str_lower _ requests_get _ _ _ Hne E) as [-> _].
      apply dict_setitem_NoDup. exact H.
Qed.

(** ** Concrete runs *)

Example strip_example : strip (lit "  Happy ") = lit "Happy".
Proof. reflexivity. Qed.

Example normalize_example : ascii_lower (strip (lit "  Happy ")) = lit "happy".
Proof. reflexivity. Qed.

Example clean_fenced_reply : clean_response fenced_reply = happy_reply.
Proof. vm_compute. reflexivity. Qed.

Example clean_plain_reply : clean_response happy_reply = happy_reply.
Proof. vm_compute. reflexivity. Qed.

(** Backticks inside the text are kept: only a fence at the very end goes. *)
Example clean_inner_backticks :
  clean_response (lit "a ``` b") = lit "a ``` b".
Proof. vm_compute. reflexivity. Qed.

Example json_loads_values :
  json_loads (lit " [1, -2.5e3, true, null, {}] ")
  = Some (PyList [PyInt 1; PyFloat (lit "-2.5e3"); PyBool true; PyNone; PyDict []]).
Proof. vm_compute. reflexivity. Qed.

(** A surrogate pair of escapes is one code point; a repeated key keeps its
    place and takes the last value. *)
Example json_loads_surrogate_pair :
  json_loads (DQUOTE :: BACKSLASH :: lit "ud83d" ++ BACKSLASH :: lit "ude00"
                ++ [DQUOTE])
  = Some (PyStr [128512]).
Proof. vm_compute. reflexivity. Qed.

Example json_loads_repeated_key :
  json_loads (LBRACE :: comma_join
                [ quoted "a" ++ COLON :: lit "1";
                  quoted "b" ++ COLON :: lit "2";
                  quoted "a" ++ COLON :: lit "3" ] ++ [RBRACE])
  = Some (PyDict [(lit "a", PyInt 3); (lit "b", PyInt 2)]).
Proof. vm_compute. reflexivity. Qed.

Example json_loads_errors :
  map json_loads [lit ""; lit "{"; lit "[1,]"; lit "01"; lit "{} x"; lit "'a'"]
  = [None; None; None; None; None; None].
Proof. vm_compute. reflexivity. Qed.

Example parse_raw_happy : parse_raw happy_reply = inr happy_info.
Proof. vm_compute. reflexivity. Qed.

(** Every failing field is reported. *)
Example parse_raw_wrong_types :
  parse_raw (LBRACE :: comma_join
               [ quoted "meaning" ++ COLON :: lit "5";
                 quoted "opposites" ++ COLON :: LBRACKET :: quoted "sad"
                   ++ COMMA :: lit "7]";
                 quoted "sentences" ++ COLON :: quoted "none" ] ++ [RBRACE])
  = inl [ StringType (lit "meaning") None;
          StringType (lit "opposites") (Some 1%nat);
          Missing (lit "similar_words");
          ListType (lit "sentences");
          Missing (lit "image_prompt") ].
Proof. vm_compute. reflexivity. Qed.

(** The scenario of the specification: the input Happy, a model that
    replies with the record's JSON, and a first run of the script.  The
    history afterwards has exactly one entry, under the key happy. *)
Example script_happy :
  let o := script ascii_lower (replies happy_reply) (answers 200) None
             (lit "Happy") true in
  history o = [(lit "happy", WordInfo_dict happy_info)] /\
  result o = inr tt /\
  map (fun ev => match ev with
                 | ModelCall _ => 1 | ImageCall _ => 2 | Log _ => 3
                 | Warning _ => 4 | ErrorBox _ => 5 | Success _ => 6
                 | ShowResult _ => 7 | ShowHistory _ => 8
                 end) (trace o) = [1; 3; 3; 2; 6; 7; 8].
Proof. vm_compute. repeat split; reflexivity. Qed.

(** The same input when the model's reply is not JSON: the error box, and
    no entry. *)
Example script_format_error :
  let o := script ascii_lower (replies (lit "Sorry, no.")) (answers 200) None
             (lit "Happy") true in
  history o = [] /\
  map (fun ev => match ev with
                 | ModelCall _ => 1 | ImageCall _ => 2 | Log _ => 3
                 | Warning _ => 4 | ErrorBox _ => 5 | Success _ => 6
                 | ShowResult _ => 7 | ShowHistory _ => 8
                 end) (trace o) = [1; 3; 3; 3; 5; 3].
Proof. vm_compute. repeat split; reflexivity. Qed.

(* ================================================================== *)
(** * Part III: the claims *)
(* ================================================================== *)

(** C1.  Round trip of the word lookup.  When the model's reply is the text
    of a JSON object that has the five keys [meaning], [opposites],
    [similar_words], [sentences] and [image_prompt] with the declared types,
    [get_word_details] returns the record whose five fields are exactly the
    decoded values.  This holds for every word, in particular for every
    non-empty trimmed one, and whatever white space surrounds the object. *)
Theorem get_word_details_roundtrip
  (llm_invoke : str -> exn + str) (word response_text : str)
  (d : dict pyobj) (info : WordInfo) (h : history_t) :
  llm_invoke (build_prompt word) = inr response_text ->
  json_loads response_text = Some (PyDict d) ->
  conforms d info ->
  result (get_word_details llm_invoke word h) = inr info.
Proof.
  intros Hllm Hjson Hc. rewrite (get_word_details_returned _ _ _ _ Hllm).
  cbv zeta. cbn [result]. unfold parse_raw.
  rewrite (json_loads_clean_response _ _ Hjson).
  rewrite (model_validate_conforms _ _ Hc). reflexivity.
Qed.

Lemma get_word_details_roundtrip_witness :
  replies happy_reply (build_prompt (lit "happy")) = inr happy_reply /\
  json_loads happy_reply = Some (PyDict (WordInfo_dict happy_info)) /\
  conforms (WordInfo_dict happy_info) happy_info /\
  result (get_word_details (replies happy_reply) (lit "happy") []) = inr happy_info.
Proof.
  assert (H1 : replies happy_reply (build_prompt (lit "happy")) = inr happy_reply)
    by reflexivity.
  assert (H2 : json_loads happy_reply = Some (PyDict (WordInfo_dict happy_info)))
    by (vm_compute; reflexivity).
  assert (H3 : conforms (WordInfo_dict happy_info) happy_info)
    by (vm_compute; repeat split; reflexivity).
  split; [exact H1|]. split; [exact H2|]. split; [exact H3|].
  exact (get_word_details_roundtrip _ _ _ _ _ [] H1 H2 H3).
Defined.



(** C3 (amended).  A reply made of a json fence (three backticks and the
    tag json), white space, a payload, white space and a closing fence of
    three backticks, with any white space around the whole, is cleaned to
    the payload without the white space at its ends: to exactly the payload
    when it neither starts nor ends with white space, as the text of a JSON
    object does.  (A fence of another kind is not covered: see
    [bare_fence_is_not_removed], and [clean_bare_fence] for every payload.) *)
Theorem clean_response_json_fence (w0 w1 w2 w3 payload : str) :
  all_space w0 = true -> all_space w1 = true ->
  all_space w2 = true -> all_space w3 = true ->
  let response_text :=
    w0 ++ (lit "```json" ++ w1 ++ payload ++ w2 ++ lit "```") ++ w3 in
  clean_response response_text = strip payload /\
  (lstrip payload = payload -> rstrip payload = payload ->
   clean_response response_text = payload).
Proof.
  intros H0 H1 H2 H3 response_text.
  assert (H : clean_response response_text = strip payload).
  { destruct (strip_split payload) as (lw & tw & Hp & Hlw & Htw).
    destruct (strip_tight payload) as [Hl Hr].
    subst response_text. rewrite Hp at 1.
    replace (w1 ++ (lw ++ strip payload ++ tw) ++ w2 ++ lit "```")
      with ((w1 ++ lw) ++ strip payload ++ (tw ++ w2) ++ lit "```")
      by (rewrite <- !app_assoc; reflexivity).
    apply clean_json_fence; try assumption;
      rewrite all_space_app; apply andb_true_iff; auto. }
  split; [exact H|]. intros Hl Hr. rewrite H. apply strip_fixed; assumption.
Qed.

Lemma clean_response_json_fence_witness :
  all_space [] = true /\ all_space [NEWLINE] = true /\
  lstrip happy_reply = happy_reply /\ rstrip happy_reply = happy_reply /\
  clean_response ([] ++ (lit "```json" ++ [NEWLINE] ++ happy_reply ++ [NEWLINE]
                           ++ lit "```") ++ [NEWLINE]) = happy_reply.
Proof.
  assert (H0 : all_space [] = true) by reflexivity.
  assert (H1 : all_space [NEWLINE] = true) by reflexivity.
  assert (Hl : lstrip happy_reply = happy_reply) by (vm_compute; reflexivity).
  assert (Hr : rstrip happy_reply = happy_reply) by (vm_compute; reflexivity).
  split; [exact H0|]. split; [exact H1|]. split; [exact Hl|]. split; [exact Hr|].
  exact (proj2 (clean_response_json_fence [] [NEWLINE] [NEWLINE] [NEWLINE]
                  happy_reply H0 H1 H1 H1) Hl Hr).
Defined.

(** C3, the claim as stated fails: a reply in a fence without the json tag
    keeps its opening fence, so the cleaned text is not the payload. *)
Lemma bare_fence_is_not_removed :
  bare_fenced_reply = lit "```" ++ [NEWLINE] ++ lit "{}" ++ [NEWLINE] ++ lit "```" /\
  clean_response bare_fenced_reply = lit "```" ++ [NEWLINE] ++ lit "{}" /\
  clean_response bare_fenced_reply <> lit "{}".
Proof.
  split; [reflexivity|]. split; [vm_compute; reflexivity|].
  vm_compute. discriminate.
Qed.

(** C4.  A format error leaves the history alone.  When the reply fails
    validation, the handler shows the generic error message, returns
    normally, and the history is exactly what it was: the word is not added
    and no stored entry changes. *)
Theorem format_error_keeps_history
  (str_lower : str -> str) (llm_invoke : str -> exn + str)
  (requests_get : str -> exn + N) (word response_text : str)
  (errors : list error_detail) (h : history_t) :
  strip word <> [] ->
  llm_invoke (build_prompt (str_lower (strip word))) = inr response_text ->
  parse_raw (clean_response response_text) = inl errors ->
  let o := explore_word str_lower llm_invoke requests_get word h in
  result (get_word_details llm_invoke (str_lower (strip word)) h) = inl format_error /\
  history o = h /\
  result o = inr tt /\
  In (ErrorBox (lit "Oops! Something went wrong. Please try again.")) (trace o) /\
  (forall k, dict_get k (history o) = dict_get k h).
Proof.
  intros Hne Hllm Herr o.
  assert (Hres : result (get_word_details llm_invoke (str_lower (strip word)) h)
                 = inl format_error).
  { rewrite (get_word_details_returned _ _ _ _ Hllm). cbv zeta. cbn [result].
    rewrite Herr. reflexivity. }
  split; [exact Hres|]. subst o.
  rewrite (explore_word_failed _ _ _ _ _ _ Hne Hres). cbn [history result trace].
  repeat split. apply in_or_app. right. left. reflexivity.
Qed.

Lemma format_error_keeps_history_witness :
  let h := [(lit "happy", WordInfo_dict happy_info)] in
  let reply := lit "I cannot help with that." in
  strip (lit " Sad ") <> [] /\
  replies reply (build_prompt (ascii_lower (strip (lit " Sad ")))) = inr reply /\
  parse_raw (clean_response reply) = inl [JsonInvalid] /\
  history (explore_word ascii_lower (replies reply) (answers 200) (lit " Sad ") h)
  = h.
Proof.
  intros h reply.
  assert (H1 : strip (lit " Sad ") <> []) by (vm_compute; discriminate).
  assert (H2 : replies reply (build_prompt (ascii_lower (strip (lit " Sad "))))
               = inr reply) by reflexivity.
  assert (H3 : parse_raw (clean_response reply) = inl [JsonInvalid])
    by (vm_compute; reflexivity).
  split; [exact H1|]. split; [exact H2|]. split; [exact H3|].
  exact (proj1 (proj2 (format_error_keeps_history ascii_lower (replies reply)
                         (answers 200) (lit " Sad ") reply [JsonInvalid] h
                         H1 H2 H3))).
Defined.

(** C5.  Blank input.  When the input is empty or made of white space only,
    the handler emits the warning and nothing else: no model call, no image
    call, and the history is unchanged. *)
Theorem blank_input_only_warns
  (str_lower : str -> str) (llm_invoke : str -> exn + str)
  (requests_get : str -> exn + N) (word : str) (h : history_t) :
  all_space word = true ->
  let o := explore_word str_lower llm_invoke requests_get word h in
  trace o = [Warning (lit "Please enter a word first!")] /\
  history o = h /\
  result o = inr tt /\
  (forall prompt, ~ In (ModelCall prompt) (trace o)) /\
  (forall url, ~ In (ImageCall url) (trace o)).
Proof.
  intros Hw o. subst o.
  rewrite explore_word_blank by (apply strip_all_space; exact Hw).
  cbn [trace history result]. repeat split; intros x [H|[]]; discriminate H.
Qed.

Lemma blank_input_only_warns_witness :
  all_space (lit "   ") = true /\
  trace (explore_word ascii_lower (replies happy_reply) (answers 200)
           (lit "   ") [])
  = [Warning (lit "Please enter a word first!")].
Proof.
  assert (H : all_space (lit "   ") = true) by reflexivity.
  split; [exact H|].
  exact (proj1 (blank_input_only_warns ascii_lower (replies happy_reply)
                  (answers 200) (lit "   ") [] H)).
Defined.

(** C6.  The image locator never raises.  Whatever the endpoint does,
    [get_image_for_word] returns: the constructed URL when the status is
    200, and no reference when the status is anything else or the request
    raises.  A returned reference is therefore always the constructed URL
    of a request answered with 200. *)
Theorem get_image_for_word_total
  (requests_get : str -> exn + N) (description : str) (h : history_t) :
  let url := image_url_of description in
  let o := get_image_for_word requests_get description h in
  (exists reference, result o = inr reference) /\
  (requests_get url = inr 200 -> result o = inr (Some url)) /\
  (forall status_code, requests_get url = inr status_code ->
                       status_code <> 200 -> result o = inr None) /\
  (forall e, requests_get url = inl e -> result o = inr None) /\
  (forall reference, result o = inr (Some reference) ->
                     reference = url /\ requests_get url = inr 200).
Proof.
  intros url o. subst o. rewrite get_image_for_word_run. cbv zeta. fold url.
  destruct (requests_get url) as [e|status_code] eqn:E; cbn [result].
  - split; [eauto|]. split; [discriminate|]. split; [discriminate|].
    split; [reflexivity|]. intros reference H. discriminate H.
  - destruct (N.eqb_spec status_code 200) as [->|Hne].
    + split; [eauto|]. split; [reflexivity|].
      split; [intros s [= <-] Hs; congruence|]. split; [discriminate|].
      intros reference [= <-]. split; reflexivity.
    + split; [eauto|]. split; [intros [= ->]; congruence|].
      split; [reflexivity|]. split; [discriminate|].
      intros reference H. discriminate H.
Qed.

Lemma get_image_for_word_total_witness :
  result (get_image_for_word (answers 404) (lit "a smiling sun") []) = inr None /\
  result (get_image_for_word unreachable (lit "a smiling sun") []) = inr None /\
  result (get_image_for_word (answers 200) (lit "a smiling sun") [])
  = inr (Some (lit "https://source.unsplash.com/512x512/?a+smiling+sun,cartoon,colorful")).
Proof.
  split; [|split].
  - apply (proj1 (proj2 (proj2 (get_image_for_word_total (answers 404)
             (lit "a smiling sun") []))) 404); [reflexivity|discriminate].
  - apply (proj1 (proj2 (proj2 (proj2 (get_image_for_word_total unreachable
             (lit "a smiling sun") []))))
             (Raised (lit "ConnectionError") (lit "unreachable"))).
    reflexivity.
  - apply (proj1 (proj2 (get_image_for_word_total (answers 200)
             (lit "a smiling sun") []))).
    reflexivity.
Defined.



(** C8 (amended).  The field [meaning] is required and must be a string,
    but it may be empty: validation fails when the key is missing or its
    value is not a string, and an object whose [meaning] is the empty string
    and whose other fields are valid is accepted, with an empty [meaning] in
    the record. *)
Theorem meaning_required_may_be_empty (d : dict pyobj) :
  (field_ok is_str (lit "meaning") d = false ->
   exists errors, model_validate (PyDict d) = inl errors) /\
  (forall info, conforms d info -> meaning info = [] ->
                model_validate (PyDict d) = inr info).
Proof.
  split.
  - intros H. apply model_validate_rejects. unfold well_typed, schema.
    cbn [forallb fst snd]. rewrite H. reflexivity.
  - intros info Hc _. apply model_validate_conforms. exact Hc.
Qed.

Lemma meaning_required_may_be_empty_witness :
  (exists errors,
      model_validate (PyDict [(lit "opposites", PyList [])]) = inl errors) /\
  model_validate (PyDict (WordInfo_dict (sample_info "" [] [] [] "sun")))
  = inr (sample_info "" [] [] [] "sun").
Proof.
  split.
  - apply (proj1 (meaning_required_may_be_empty [(lit "opposites", PyList [])])).
    reflexivity.
  - apply (proj2 (meaning_required_may_be_empty
                    (WordInfo_dict (sample_info "" [] [] [] "sun")))).
    + vm_compute. repeat split; reflexivity.
    + reflexivity.
Defined.

(** C8, the claim as stated fails: a reply whose [meaning] is the empty
    string passes validation, and the lookup returns a record with an empty
    [meaning]. *)
Lemma empty_meaning_is_accepted :
  dict_get (lit "meaning")
    (WordInfo_dict (sample_info "" ["a"; "b"; "c"] ["d"; "e"; "f"] ["g"; "h"; "i"] "j"))
  = Some (PyStr []) /\
  parse_raw empty_meaning_reply
  = inr (sample_info "" ["a"; "b"; "c"] ["d"; "e"; "f"] ["g"; "h"; "i"] "j") /\
  result (get_word_details (replies empty_meaning_reply) (lit "word") [])
  = inr (sample_info "" ["a"; "b"; "c"] ["d"; "e"; "f"] ["g"; "h"; "i"] "j").
Proof. repeat split; vm_compute; reflexivity. Qed.

(** C9.  No cardinality is enforced.  An object with the five keys and the
    declared types is accepted whatever the lengths of its three lists, and
    there is such an object for every choice of the three lengths. *)
Theorem validation_any_cardinality :
  (forall (d : dict pyobj) (m p : str) (o w t : list str),
      conforms d (mkWordInfo m o w t p) ->
      model_validate (PyDict d) = inr (mkWordInfo m o w t p)) /\
  (forall n1 n2 n3 : nat,
      exists d info,
        List.length (opposites info) = n1 /\
        List.length (similar_words info) = n2 /\
        List.length (sentences info) = n3 /\
        model_validate (PyDict d) = inr info).
Proof.
  split.
  - intros d m p o w t Hc. apply model_validate_conforms. exact Hc.
  - intros n1 n2 n3.
    exists (WordInfo_dict (mkWordInfo [] (repeat [] n1) (repeat [] n2) (repeat [] n3) [])),
      (mkWordInfo [] (repeat [] n1) (repeat [] n2) (repeat [] n3) []).
    cbn [opposites similar_words sentences]. rewrite !repeat_length.
    repeat split. apply model_validate_conforms. repeat split.
Qed.

Lemma validation_any_cardinality_witness :
  let info := sample_info "glad" ["sad"; "low"] ["a"; "b"; "c"; "d"] [] "sun" in
  conforms (WordInfo_dict info) info /\
  model_validate (PyDict (WordInfo_dict info)) = inr info.
Proof.
  intros info.
  assert (H : conforms (WordInfo_dict info) info)
    by (vm_compute; repeat split; reflexivity).
  split; [exact H|].
  exact (proj1 validation_any_cardinality (WordInfo_dict info) _ _ _ _ _ H).
Defined.



(* ================================================================== *)
(** * Part IV: further properties of the script *)
(* ================================================================== *)

(** ** The events of the two helpers *)

Lemma get_word_details_events (llm_invoke : str -> exn + str) (word : str)
  (h : history_t) :
  let o := get_word_details llm_invoke word h in
  filter on_page (trace o) = [] /\
  filter is_ModelCall (trace o) = [ModelCall (build_prompt word)] /\
  filter is_ImageCall (trace o) = [].
Proof.
  cbv zeta. destruct (llm_invoke (build_prompt word)) as [e|r] eqn:E.
  - rewrite (get_word_details_raised _ _ _ _ E). repeat split.
  - rewrite (get_word_details_returned _ _ _ _ E). cbv zeta.
    destruct (parse_raw (clean_response r)); repeat split.
Qed.

Lemma get_image_for_word_events (requests_get : str -> exn + N)
  (description : str) (h : history_t) :
  let o := get_image_for_word requests_get description h in
  history o = h /\
  filter on_page (trace o) = [] /\
  filter is_ModelCall (trace o) = [] /\
  filter is_ImageCall (trace o) = [ImageCall (image_url_of description)].
Proof.
  cbv zeta. rewrite get_image_for_word_run. cbv zeta.
  destruct (requests_get (image_url_of description)); repeat split.
Qed.

(** The handler when the lookup returns a record, in full. *)
Lemma explore_word_returned (str_lower : str -> str)
  (llm_invoke : str -> exn + str) (requests_get : str -> exn + N)
  (word : str) (info : WordInfo) (h : history_t) :
  strip word <> [] ->
  let w := str_lower (strip word) in
  result (get_word_details llm_invoke w h) = inr info ->
  explore_word str_lower llm_invoke requests_get word h =
  mkOutcome
    (trace (get_word_details llm_invoke w h) ++
     trace (get_image_for_word requests_get (image_prompt info) h) ++
     [Success (lit "Here's what I found about **" ++ w ++ lit "**!");
      ShowResult info])
    (dict_setitem w (WordInfo_dict info) h)
    (inr tt).
Proof.
  intros Hne. cbv zeta. intros H. unfold explore_word.
  destruct (strip word) as [|c s] eqn:Es; [congruence|].
  match goal with
  | |- try_except ?body _ _ h = ?rhs => assert (Hb : body h = rhs)
  end.
  { rewrite (bind_returned _ _ _ _ H). rewrite get_word_details_history.
    unfold bind, get_history, set_history, emit.
    rewrite !get_image_for_word_run. cbv zeta.
    destruct (requests_get (image_url_of (image_prompt info)));
      cbn [trace history result app]; reflexivity. }
  rewrite (try_except_returned _ _ _ h tt); [exact Hb|].
  rewrite Hb. reflexivity.
Qed.

(** The three ways a press of the button can go. *)
Lemma explore_word_cases (str_lower : str -> str)
  (llm_invoke : str -> exn + str) (requests_get : str -> exn + N)
  (word : str) (h : history_t) :
  let w := str_lower (strip word) in
  let o := explore_word str_lower llm_invoke requests_get word h in
  (strip word = [] /\
   o = mkOutcome [Warning (lit "Please enter a word first!")] h (inr tt)) \/
  (strip word <> [] /\
   exists e, result (get_word_details llm_invoke w h) = inl e /\
     o = mkOutcome
           (trace (get_word_details llm_invoke w h) ++
            [ErrorBox (lit "Oops! Something went wrong. Please try again.");
             Log (ErrorProcessing w e)])
           h (inr tt)) \/
  (strip word <> [] /\
   exists info, result (get_word_details llm_invoke w h) = inr info /\
     o = mkOutcome
           (trace (get_word_details llm_invoke w h) ++
            trace (get_image_for_word requests_get (image_prompt info) h) ++
            [Success (lit "Here's what I found about **" ++ w ++ lit "**!");
             ShowResult info])
           (dict_setitem w (WordInfo_dict info) h)
           (inr tt)).
Proof.
  cbv zeta. destruct (strip word) as [|c s] eqn:Es.
  - left. split; [reflexivity|]. apply explore_word_blank. exact Es.
  - assert (Hne : strip word <> []) by (rewrite Es; discriminate).
    rewrite <- Es.
    destruct (result (get_word_details llm_invoke (str_lower (strip word)) h))
      as [e|info] eqn:Hr.
    + right; left. split; [exact Hne|]. exists e. split; [reflexivity|].
      apply (explore_word_failed str_lower llm_invoke requests_get word e h Hne Hr).
    + right; right. split; [exact Hne|]. exists info. split; [reflexivity|].
      apply (explore_word_returned str_lower llm_invoke requests_get word info h Hne Hr).
Qed.

(** ** The handler of the button *)

Section Press.

Variable str_lower : str -> str.
Variable llm_invoke : str -> exn + str.
Variable requests_get : str -> exn + N.

(** X9. When the call to the model raises an exception (the model cannot be
    reached, say), pressing the button with a word that is not blank does
    exactly this: the one model call, the generic error box, and a log
    record that carries the normalized word and that very exception. The
    image endpoint is not called and the history is left as it was. *)
Theorem model_failure_is_reported (word : str) (e : exn) (h : history_t) :
  strip word <> [] ->
  let w := str_lower (strip word) in
  llm_invoke (build_prompt w) = inl e ->
  explore_word str_lower llm_invoke requests_get word h =
  mkOutcome
    [ModelCall (build_prompt w);
     ErrorBox (lit "Oops! Something went wrong. Please try again.");
     Log (ErrorProcessing w e)]
    h (inr tt).
Proof.
  intros Hne. cbv zeta. intros He.
  pose proof (get_word_details_raised llm_invoke _ e h He) as Hrun.
  rewrite (explore_word_failed str_lower llm_invoke requests_get word e h Hne);
    rewrite Hrun; reflexivity.
Qed.

(** X11. A press of the button changes at most the entry of the normalized
    word: every other key keeps its record, the keys that were in the
    history keep their order at the front of it, and a word that was
    already there keeps its place (its record is replaced where it
    stands, it does not move to the end). *)
Theorem press_touches_one_key (word : str) (h : history_t) :
  let w := str_lower (strip word) in
  let h' := history (explore_word str_lower llm_invoke requests_get word h) in
  (forall k, k <> w -> dict_get k h' = dict_get k h) /\
  (exists tail, dict_keys h' = dict_keys h ++ tail) /\
  (In w (dict_keys h) -> dict_keys h' = dict_keys h).
Proof.
  cbv zeta.
  destruct (explore_word_cases str_lower llm_invoke requests_get word h)
    as [[_ ->]|[[_ [e [_ ->]]]|[_ [info [_ ->]]]]]; cbn [history].
  - repeat split; auto. exists []. rewrite app_nil_r. reflexivity.
  - repeat split; auto. exists []. rewrite app_nil_r. reflexivity.
  - split; [|split].
    + intros k Hk. apply dict_get_setitem_neq. exact Hk.
    + rewrite dict_keys_setitem.
      destruct (existsb _ _); [exists []; rewrite app_nil_r|eexists]; reflexivity.
    + intros Hin. rewrite dict_keys_setitem.
      replace (existsb (str_eqb (str_lower (strip word))) (dict_keys h)) with true;
        [reflexivity|].
      symmetry. apply existsb_exists. eexists. split; [exact Hin|].
      apply str_eqb_refl.
Qed.

(** X12. A press of the button calls the model exactly once when the word is
    not blank, with the prompt built from the normalized word, and never
    otherwise (there is no second attempt after a failure). It calls the
    image endpoint exactly once when the lookup returned a record, with
    the URL made from the record's image prompt, and never otherwise. *)
Theorem calls_of_a_press (word : str) (h : history_t) :
  let w := str_lower (strip word) in
  let o := explore_word str_lower llm_invoke requests_get word h in
  filter is_ModelCall (trace o) =
    (match strip word with
     | [] => []
     | _ :: _ => [ModelCall (build_prompt w)]
     end) /\
  filter is_ImageCall (trace o) =
    (match strip word, result (get_word_details llm_invoke w h) with
     | _ :: _, inr info => [ImageCall (image_url_of (image_prompt info))]
     | _, _ => []
     end).
Proof.
  cbv zeta.
  pose proof (get_word_details_events llm_invoke (str_lower (strip word)) h) as Hd.
  cbv zeta in Hd. destruct Hd as [_ [Hm Hi]].
  destruct (explore_word_cases str_lower llm_invoke requests_get word h)
    as [[Hs ->]|[[Hs [e [Hr ->]]]|[Hs [info [Hr ->]]]]]; cbn [trace].
  - rewrite Hs. split; reflexivity.
  - rewrite Hr. rewrite !filter_app, Hm, Hi.
    destruct (strip word); [congruence|]. split; reflexivity.
  - pose proof (get_image_for_word_events requests_get (image_prompt info) h) as Hg.
    cbv zeta in Hg. destruct Hg as [_ [_ [Hgm Hgi]]].
    rewrite Hr. rewrite !filter_app, Hm, Hi, Hgm, Hgi.
    destruct (strip word); [congruence|]. split; reflexivity.
Qed.


(** X10. The illustration plays no part in what the user gets: for any two
    behaviours of the image endpoint (any status code, or an exception),
    a press of the button leaves the same history, ends the same way,
    puts the same things on the page and makes the same model calls. *)
Theorem image_endpoint_is_irrelevant (requests_get' : str -> exn + N)
  (word : str) (h : history_t) :
  let o := explore_word str_lower llm_invoke requests_get word h in
  let o' := explore_word str_lower llm_invoke requests_get' word h in
  history o = history o' /\
  result o = result o' /\
  filter on_page (trace o) = filter on_page (trace o') /\
  filter is_ModelCall (trace o) = filter is_ModelCall (trace o').
Proof.
  cbv zeta.
  destruct (explore_word_cases str_lower llm_invoke requests_get word h)
    as [[Hs ->]|[[Hs [e [Hr ->]]]|[Hs [info [Hr ->]]]]].
  - rewrite (explore_word_blank str_lower llm_invoke requests_get' word h Hs).
    repeat split.
  - rewrite (explore_word_failed str_lower llm_invoke requests_get' word e h Hs Hr).
    repeat split.
  - rewrite (explore_word_returned str_lower llm_invoke requests_get' word info h Hs Hr).
    cbn [trace history result].
    pose proof (get_image_for_word_events requests_get (image_prompt info) h) as Hg.
    pose proof (get_image_for_word_events requests_get' (image_prompt info) h) as Hg'.
    cbv zeta in Hg, Hg'. destruct Hg as [_ [Hp [Hm _]]]. destruct Hg' as [_ [Hp' [Hm' _]]].
    rewrite !filter_app, Hp, Hp', Hm, Hm'. repeat split.
Qed.

End Press.

Lemma model_failure_is_reported_witness :
  strip (lit " Happy ") <> [] /\
  @unreachable str (build_prompt (ascii_lower (strip (lit " Happy "))))
    = inl (Raised (lit "ConnectionError") (lit "unreachable")) /\
  explore_word ascii_lower unreachable (answers 200) (lit " Happy ")
    [(lit "sad", WordInfo_dict happy_info)]
  = mkOutcome
      [ModelCall (build_prompt (ascii_lower (strip (lit " Happy "))));
       ErrorBox (lit "Oops! Something went wrong. Please try again.");
       Log (ErrorProcessing (ascii_lower (strip (lit " Happy ")))
              (Raised (lit "ConnectionError") (lit "unreachable")))]
      [(lit "sad", WordInfo_dict happy_info)] (inr tt).
Proof.
  assert (H1 : strip (lit " Happy ") <> []) by (vm_compute; discriminate).
  assert (H2 : @unreachable str (build_prompt (ascii_lower (strip (lit " Happy "))))
               = inl (Raised (lit "ConnectionError") (lit "unreachable")))
    by reflexivity.
  split; [exact H1|]. split; [exact H2|].
  exact (model_failure_is_reported ascii_lower unreachable (answers 200)
           (lit " Happy ") _ _ H1 H2).
Defined.

(** ** A run of the script, and a session of runs *)

Lemma script_run (str_lower : str -> str) (llm_invoke : str -> exn + str)
  (requests_get : str -> exn + N) (session : option history_t) (word : str)
  (button : bool) :
  let h0 := session_history session in
  let o := if button then explore_word str_lower llm_invoke requests_get word h0
           else mkOutcome [] h0 (inr tt) in
  script str_lower llm_invoke requests_get session word button =
  mkOutcome
    (trace o ++ match history o with
                | [] => []
                | _ :: _ => [ShowHistory (history o)]
                end)
    (history o) (inr tt).
Proof.
  cbv zeta. unfold script. fold (session_history session).
  destruct button.
  - destruct (explore_word_cases str_lower llm_invoke requests_get word
                (session_history session))
      as [[_ E]|[[_ [e [_ E]]]|[_ [info [_ E]]]]];
      unfold bind, get_history, ret, emit; rewrite E; cbn [trace history result];
      match goal with
      | |- context [match ?x with [] => _ | _ :: _ => _ end] => destruct x
      end; cbn [trace history result]; rewrite ?app_nil_r; reflexivity.
  - unfold bind, get_history, ret, emit. cbn [trace history result].
    destruct (session_history session); reflexivity.
Qed.

Lemma get_word_details_result_inv (llm_invoke : str -> exn + str) (word : str)
  (h : history_t) (info : WordInfo) :
  result (get_word_details llm_invoke word h) = inr info ->
  exists response_text,
    llm_invoke (build_prompt word) = inr response_text /\
    parse_raw (clean_response response_text) = inr info.
Proof.
  destruct (llm_invoke (build_prompt word)) as [e|r] eqn:E.
  - rewrite (get_word_details_raised _ _ _ _ E). discriminate.
  - rewrite (get_word_details_returned _ _ _ _ E). cbv zeta. cbn [result].
    destruct (parse_raw (clean_response r)) eqn:P; [discriminate|].
    intros H. injection H as <-. exists r. auto.
Qed.

Lemma dict_setitem_In {V : Type} (k : str) (v : V) (d : dict V) (k0 : str) (v0 : V) :
  In (k0, v0) (dict_setitem k v d) -> (k0 = k /\ v0 = v) \/ In (k0, v0) d.
Proof.
  induction d as [|[k' v'] d IH]; cbn [dict_setitem].
  - intros [H|[]]. injection H as <- <-. left. auto.
  - destruct (str_eqb k k') eqn:E.
    + apply str_eqb_eq in E. subst k'. intros [H|H].
      * injection H as <- <-. left. auto.
      * right. right. exact H.
    + intros [H|H].
      * right. left. exact H.
      * destruct (IH H) as [?|?]; [left|right; right]; assumption.
Qed.

Lemma dict_setitem_length {V : Type} (k : str) (v : V) (d : dict V) :
  (List.length (dict_setitem k v d) <= S (List.length d))%nat.
Proof.
  induction d as [|[k' v'] d IH]; cbn [dict_setitem]; [cbn; lia|].
  destruct (str_eqb k k'); cbn [List.length]; lia.
Qed.

Lemma session_after_snoc (str_lower : str -> str) (runs : list interaction)
  (i : interaction) :
  session_after str_lower (runs ++ [i]) = rerun str_lower (session_after str_lower runs) i.
Proof. unfold session_after. rewrite fold_left_app. reflexivity. Qed.

Lemma rerun_history (str_lower : str -> str) (session : option history_t)
  (i : interaction) :
  session_history (rerun str_lower session i) =
  if pressed i
  then history (explore_word str_lower (model i) (endpoint i) (typed i)
                  (session_history session))
  else session_history session.
Proof.
  unfold rerun. cbn [session_history]. rewrite script_run. cbv zeta.
  cbn [history]. destruct (pressed i); reflexivity.
Qed.




(** X15. After any sequence of runs of a session that started without a
    history: the keys of the history are distinct; every entry is the
    dictionary of a record that some run with the button pressed got
    from the model for that very key (the typed word, stripped and in
    lower case; the reply, cleaned, passed the validation); and there
    are at most as many entries as runs with the button pressed. *)
Theorem session_history_is_sound (str_lower : str -> str) (runs : list interaction) :
  let h := session_history (session_after str_lower runs) in
  NoDup (dict_keys h) /\
  (forall w data, In (w, data) h ->
     exists i response_text info,
       In i runs /\ pressed i = true /\ strip (typed i) <> [] /\
       w = str_lower (strip (typed i)) /\
       model i (build_prompt w) = inr response_text /\
       parse_raw (clean_response response_text) = inr info /\
       data = WordInfo_dict info) /\
  (List.length h <= List.length (filter pressed runs))%nat.
Proof.
  cbv zeta. induction runs as [|i runs IH] using rev_ind.
  - cbn. split; [constructor|]. split; [intros ? ? []|lia].
  - destruct IH as [Hnd [Hin Hlen]].
    assert (Hold : forall w data,
               In (w, data) (session_history (session_after str_lower runs)) ->
               exists i0 response_text info,
                 In i0 (runs ++ [i]) /\ pressed i0 = true /\ strip (typed i0) <> [] /\
                 w = str_lower (strip (typed i0)) /\
                 model i0 (build_prompt w) = inr response_text /\
                 parse_raw (clean_response response_text) = inr info /\
                 data = WordInfo_dict info).
    { intros w data H. destruct (Hin w data H) as [i0 [r [info [Hi Hrest]]]].
      exists i0, r, info. split; [apply in_or_app; left; exact Hi|exact Hrest]. }
    rewrite session_after_snoc, rerun_history, filter_app, length_app.
    cbn [filter]. destruct (pressed i) eqn:Hp.
    + split; [apply explore_word_NoDup; exact Hnd|].
      destruct (explore_word_cases str_lower (model i) (endpoint i) (typed i)
                  (session_history (session_after str_lower runs)))
        as [[_ ->]|[[_ [e [_ ->]]]|[Hs [info [Hr ->]]]]]; cbn [history List.length].
      * split; [exact Hold|lia].
      * split; [exact Hold|lia].
      * split.
        -- intros w data H. apply dict_setitem_In in H. destruct H as [[-> ->]|H].
           ++ destruct (get_word_details_result_inv _ _ _ _ Hr) as [r [Hm Hparse]].
              exists i, r, info. split; [apply in_or_app; right; left; reflexivity|].
              auto 10.
           ++ apply Hold. exact H.
        -- pose proof (dict_setitem_length (str_lower (strip (typed i)))
                         (WordInfo_dict info)
                         (session_history (session_after str_lower runs))).
           lia.
    + cbn [List.length]. split; [exact Hnd|]. split; [exact Hold|lia].
Qed.

(** X16. Between two moments of a session the history only grows: the words
    present at the first moment are still there at the second, in the
    same order and at the front; no run removes or reorders an entry. *)
Theorem session_never_forgets (str_lower : str -> str)
  (runs more : list interaction) :
  exists tail,
    dict_keys (session_history (session_after str_lower (runs ++ more))) =
    dict_keys (session_history (session_after str_lower runs)) ++ tail.
Proof.
  induction more as [|i more IH] using rev_ind.
  - exists []. rewrite !app_nil_r. reflexivity.
  - destruct IH as [tail IH]. rewrite app_assoc, session_after_snoc, rerun_history.
    destruct (pressed i); [|exists tail; exact IH].
    destruct (explore_word_cases str_lower (model i) (endpoint i) (typed i)
                (session_history (session_after str_lower (runs ++ more))))
      as [[_ ->]|[[_ [e [_ ->]]]|[_ [info [_ ->]]]]]; cbn [history];
      try (exists tail; exact IH).
    rewrite dict_keys_setitem, IH.
    destruct (existsb _ _); [exists tail; reflexivity|].
    eexists. rewrite <- app_assoc. reflexivity.
Qed.

Lemma session_history_is_sound_witness :
  let runs :=
    [ mkInteraction (lit " Happy ") true (replies happy_reply) (answers 404);
      mkInteraction (lit "sad") true unreachable (answers 200);
      mkInteraction (lit "glad") false (replies happy_reply) (answers 200) ] in
  In (lit "happy", WordInfo_dict happy_info)
     (session_history (session_after ascii_lower runs)) /\
  exists i response_text info,
    In i runs /\ pressed i = true /\ strip (typed i) <> [] /\
    lit "happy" = ascii_lower (strip (typed i)) /\
    model i (build_prompt (lit "happy")) = inr response_text /\
    parse_raw (clean_response response_text) = inr info /\
    WordInfo_dict happy_info = WordInfo_dict info.
Proof.
  cbv zeta.
  match goal with
  | |- ?P /\ _ => assert (H : P) by (vm_compute; left; reflexivity)
  end.
  split; [exact H|].
  exact (proj1 (proj2 (session_history_is_sound ascii_lower _)) _ _ H).
Defined.

(** ** The history display *)





(** ** Which replies the cleaning step changes, and which can be accepted *)

Lemma opening_needs_tag (bol : bool) (s : str) :
  strip_prefix (lit "```json") s = None -> match_seq opening bol s = None.
Proof.
  intros H. unfold opening. cbn [match_seq]. rewrite H.
  destruct bol; reflexivity.
Qed.

Lemma at_end_inv (r : str) : at_end r = true -> r = [] \/ r = [NEWLINE].
Proof.
  destruct r as [|a [|b r]]; cbn [at_end]; [auto| |discriminate].
  intros H. apply N.eqb_eq in H. subst a. auto.
Qed.

(** In a text without white space at its end, the closing alternative
    matches only where the rest of the text is white space and the
    three backticks that end the text. *)
Lemma closing_at_end (bol : bool) (s r : str) :
  rstrip s = s -> match_seq closing bol s = Some r ->
  r = [] /\ exists w, all_space w = true /\ s = w ++ lit "```".
Proof.
  intros Hr H. apply closing_inv in H. destruct H as [w [Hw [Hs He]]].
  apply at_end_inv in He. destruct He as [->| ->].
  - split; [reflexivity|]. exists w. rewrite app_nil_r in Hs. auto.
  - exfalso. rewrite app_assoc in Hs. rewrite Hs in Hr.
    rewrite rstrip_app_space in Hr by reflexivity.
    rewrite rstrip_closing in Hr.
    apply (f_equal (@List.length char)) in Hr. rewrite !length_app in Hr.
    cbn [List.length] in Hr. lia.
Qed.

Lemma re_sub_scan_no_fence (s : str) :
  rstrip s = s -> (forall y, s <> y ++ lit "```") ->
  forall bol, (bol = true -> strip_prefix (lit "```json") s = None) ->
  re_sub_scan fence_pattern bol 0 s = s.
Proof.
  induction s as [|c s IH]; intros Hr Hno bol Hop; [reflexivity|].
  assert (Hm : match_alt fence_pattern bol (c :: s) = None).
  { unfold fence_pattern. cbn [match_alt].
    assert (Ho : match_seq opening bol (c :: s) = None).
    { destruct bol; [apply opening_needs_tag; auto|apply opening_not_inside]. }
    rewrite Ho.
    destruct (match_seq closing bol (c :: s)) as [r|] eqn:Hc; [|reflexivity].
    exfalso. destruct (closing_at_end _ _ _ Hr Hc) as [_ [w [_ Hs]]].
    exact (Hno w Hs). }
  rewrite (re_sub_scan_keep _ _ _ _ Hm). f_equal.
  apply IH.
  - exact (rstrip_tail _ _ Hr).
  - intros y Hy. apply (Hno (c :: y)). rewrite Hy. reflexivity.
  - discriminate.
Qed.

(** X7. The cleaning step changes nothing but the white space at the two
    ends of a reply, unless the reply (once stripped) starts with the
    json fence or ends with three backticks: backticks elsewhere in the
    text, and fences that are not at its ends, are kept. *)
Theorem clean_response_elsewhere (response_text : str) :
  strip_prefix (lit "```json") (strip response_text) = None ->
  (forall y, strip response_text <> y ++ lit "```") ->
  clean_response response_text = strip response_text.
Proof.
  intros Hop Hno. unfold clean_response, re_sub_empty.
  apply re_sub_scan_no_fence; [apply strip_tight|exact Hno|intros _; exact Hop].
Qed.

Lemma clean_response_elsewhere_witness :
  let response_text := lit " see ```json {} ``` above " in
  strip_prefix (lit "```json") (strip response_text) = None /\
  (forall y, strip response_text <> y ++ lit "```") /\
  clean_response response_text = lit "see ```json {} ``` above".
Proof.
  cbv zeta.
  assert (H1 : strip_prefix (lit "```json") (strip (lit " see ```json {} ``` above "))
               = None) by reflexivity.
  assert (H2 : forall y, strip (lit " see ```json {} ``` above ") <> y ++ lit "```").
  { intros y H. apply (f_equal (@rev char)) in H. rewrite rev_app_distr in H.
    vm_compute in H. discriminate H. }
  split; [exact H1|]. split; [exact H2|].
  exact (clean_response_elsewhere _ H1 H2).
Defined.





(** ** The lookup *)



(** X4. A record is never made up: when the lookup returns a record, the
    model did reply, the cleaned reply decodes to a JSON object, and the
    five fields of the record are exactly the values the object has
    under the five keys (strings and lists of strings, nothing
    converted, nothing defaulted). The run then consists of the model
    call and the two log records of the raw and the cleaned reply. *)
Theorem returned_record_is_the_reply (llm_invoke : str -> exn + str) (word : str)
  (info : WordInfo) (h : history_t) :
  result (get_word_details llm_invoke word h) = inr info ->
  exists response_text d,
    llm_invoke (build_prompt word) = inr response_text /\
    json_loads (clean_response response_text) = Some (PyDict d) /\
    conforms d info /\
    trace (get_word_details llm_invoke word h) =
      [ModelCall (build_prompt word);
       Log (RawResponse word response_text);
       Log (CleanedResponse word (clean_response response_text))].
Proof.
  intros H. destruct (get_word_details_result_inv _ _ _ _ H) as [r [Hm Hp]].
  pose proof Hp as Hp'. unfold parse_raw in Hp'.
  destruct (json_loads (clean_response r)) as [obj|] eqn:J; [|discriminate Hp'].
  destruct (model_validate_inv _ _ Hp') as [d [-> Hc]].
  exists r, d. repeat split; try assumption; try apply Hc.
  rewrite (get_word_details_returned _ _ _ _ Hm). cbv zeta. cbn [trace].
  rewrite Hp. reflexivity.
Qed.

Lemma returned_record_is_the_reply_witness :
  result (get_word_details (replies fenced_reply) (lit "happy") []) = inr happy_info /\
  exists response_text d,
    replies fenced_reply (build_prompt (lit "happy")) = inr response_text /\
    json_loads (clean_response response_text) = Some (PyDict d) /\
    conforms d happy_info /\
    trace (get_word_details (replies fenced_reply) (lit "happy") []) =
      [ModelCall (build_prompt (lit "happy"));
       Log (RawResponse (lit "happy") response_text);
       Log (CleanedResponse (lit "happy") (clean_response response_text))].
Proof.
  assert (H : result (get_word_details (replies fenced_reply) (lit "happy") [])
              = inr happy_info) by (vm_compute; reflexivity).
  split; [exact H|].
  exact (returned_record_is_the_reply (replies fenced_reply) (lit "happy")
           happy_info [] H).
Defined.



(** The text of an object has no white space at its ends. *)
Lemma object_text_tight (body : str) :
  lstrip (LBRACE :: body ++ [RBRACE]) = LBRACE :: body ++ [RBRACE] /\
  rstrip (LBRACE :: body ++ [RBRACE]) = LBRACE :: body ++ [RBRACE].
Proof.
  split; [reflexivity|].
  change (LBRACE :: body ++ [RBRACE]) with ((LBRACE :: body) ++ [RBRACE]).
  apply rstrip_snoc. reflexivity.
Qed.

(** X6. The cleaning step and the validation fit together: a reply that
    wraps the text of a JSON object in a json fence (white space allowed
    around the fence and around the payload inside it) is accepted
    whenever the payload alone decodes to an object with the five keys
    and the declared types, and the lookup returns the record of the
    decoded values. *)
Theorem fenced_object_is_accepted (llm_invoke : str -> exn + str)
  (word w0 w1 w2 w3 payload : str) (d : dict pyobj) (info : WordInfo)
  (h : history_t) :
  all_space w0 = true -> all_space w1 = true ->
  all_space w2 = true -> all_space w3 = true ->
  llm_invoke (build_prompt word)
    = inr (w0 ++ (lit "```json" ++ w1 ++ payload ++ w2 ++ lit "```") ++ w3) ->
  json_loads payload = Some (PyDict d) ->
  conforms d info ->
  result (get_word_details llm_invoke word h) = inr info.
Proof.
  intros H0 H1 H2 H3 Hm Hj Hc.
  destruct (json_loads_object_shape _ _ Hj) as [a [body [b [Hs [Ha [Hb Hobj]]]]]].
  destruct (object_text_tight body) as [Hl Hr].
  assert (Hclean :
    clean_response (w0 ++ (lit "```json" ++ w1 ++ payload ++ w2 ++ lit "```") ++ w3)
    = LBRACE :: body ++ [RBRACE]).
  { rewrite Hs.
    replace (w1 ++ (a ++ (LBRACE :: body ++ [RBRACE]) ++ b) ++ w2 ++ lit "```")
      with ((w1 ++ a) ++ (LBRACE :: body ++ [RBRACE]) ++ (b ++ w2) ++ lit "```").
    - apply clean_json_fence; try assumption.
      + rewrite all_space_app, H1, (json_space_all_space _ Ha). reflexivity.
      + rewrite all_space_app, H2, (json_space_all_space _ Hb). reflexivity.
    - generalize (LBRACE :: body ++ [RBRACE]) as P. intros P.
      rewrite <- !app_assoc. reflexivity. }
  rewrite (get_word_details_returned _ _ _ _ Hm). cbv zeta. cbn [result].
  rewrite Hclean. unfold parse_raw. rewrite Hobj.
  rewrite (model_validate_conforms _ _ Hc). reflexivity.
Qed.

Lemma fenced_object_is_accepted_witness :
  let payload := SPACE :: happy_reply ++ [NEWLINE] in
  let reply := [NEWLINE] ++ (lit "```json" ++ [NEWLINE] ++ payload ++ [] ++ lit "```")
                 ++ [SPACE] in
  json_loads payload = Some (PyDict (WordInfo_dict happy_info)) /\
  conforms (WordInfo_dict happy_info) happy_info /\
  result (get_word_details (replies reply) (lit "happy") []) = inr happy_info.
Proof.
  cbv zeta.
  assert (Hj : json_loads (SPACE :: happy_reply ++ [NEWLINE])
               = Some (PyDict (WordInfo_dict happy_info))) by (vm_compute; reflexivity).
  assert (Hc : conforms (WordInfo_dict happy_info) happy_info)
    by (repeat split; reflexivity).
  split; [exact Hj|]. split; [exact Hc|].
  exact (fenced_object_is_accepted (replies _) (lit "happy") [NEWLINE] [NEWLINE] []
           [SPACE] _ _ happy_info [] eq_refl eq_refl eq_refl eq_refl eq_refl Hj Hc).
Defined.

(** ** The prompt, the image URL, the stored record, the API key *)

Lemma cons_frame (c : char) (t b r : str) : t = b ++ r -> c :: t = (c :: b) ++ r.
Proof. intros ->. reflexivity. Qed.

(** The prompt is the word between two fixed texts. *)
Lemma build_prompt_frame :
  exists before after : str,
    forall word, build_prompt word = before ++ word ++ after.
Proof.
  eexists. eexists. intros word.
  match goal with
  | |- ?L = _ => let L' := eval cbn in L in change L with L'
  end.
  rewrite <- app_assoc.
  repeat (apply cons_frame).
  exact (eq_refl ([] ++ word ++ _)).
Qed.

(** X2. The prompt is the template with the word put in at one place: the
    text before the word and the text after it do not depend on the
    word, so the word can be read back from the prompt and different
    words give different prompts. *)
Theorem build_prompt_injective :
  (exists before after : str,
      forall word, build_prompt word = before ++ word ++ after) /\
  (forall word word', word <> word' -> build_prompt word <> build_prompt word').
Proof.
  split; [exact build_prompt_frame|].
  intros word word' Hne H. destruct build_prompt_frame as [before [after Hf]].
  rewrite !Hf in H. apply app_inv_head in H. apply app_inv_tail in H.
  exact (Hne H).
Qed.

Lemma build_prompt_injective_witness :
  lit "happy" <> lit "sad" /\
  build_prompt (lit "happy") <> build_prompt (lit "sad").
Proof.
  assert (H : lit "happy" <> lit "sad") by (vm_compute; discriminate).
  split; [exact H|]. exact (proj2 build_prompt_injective _ _ H).
Defined.



(** X20. The image lookup makes exactly one request, to the URL made from
    the description, and touches neither the history nor the page. It
    writes a log record exactly when the request raised an exception,
    and the record carries that exception; an answer with a status
    other than 200 leaves no trace in the log. *)
Theorem image_lookup_logs_only_exceptions (requests_get : str -> exn + N)
  (description : str) (h : history_t) :
  let url := image_url_of description in
  let o := get_image_for_word requests_get description h in
  history o = h /\
  filter on_page (trace o) = [] /\
  trace o = ImageCall url ::
            (match requests_get url with
             | inl e => [Log (ImageFetchFailed e)]
             | inr _ => []
             end).
Proof.
  cbv zeta. rewrite get_image_for_word_run. cbv zeta.
  destruct (requests_get (image_url_of description)); repeat split.
Qed.

(** X14. The dictionary stored in the history for a record has exactly the
    five fields, in the order of their declaration; validating it gives
    the record back, and two records with the same dictionary are the
    same record. *)
Theorem WordInfo_dict_roundtrip (info : WordInfo) :
  dict_keys (WordInfo_dict info) = required_keys /\
  model_validate (PyDict (WordInfo_dict info)) = inr info /\
  (forall info', WordInfo_dict info' = WordInfo_dict info -> info' = info).
Proof.
  assert (Hv : forall i, model_validate (PyDict (WordInfo_dict i)) = inr i).
  { intros i. apply model_validate_conforms. repeat split; reflexivity. }
  split; [reflexivity|]. split; [apply Hv|].
  intros info' H. pose proof (Hv info') as H'. rewrite H, Hv in H'.
  injection H' as H'. symmetry. exact H'.
Qed.

Lemma WordInfo_dict_roundtrip_witness :
  WordInfo_dict happy_info = WordInfo_dict happy_info /\
  model_validate (PyDict (WordInfo_dict happy_info)) = inr happy_info.
Proof.
  split; [reflexivity|].
  exact (proj1 (proj2 (WordInfo_dict_roundtrip happy_info))).
Defined.

(** X1. The script starts only with a key under the name CLAUDE_API_KEY
    that is not empty, and then uses that key; a name that is unset or
    set to the empty text stops it with the [ValueError]. The name the
    message of that error tells the operator to set, ANTHROPIC_API_KEY,
    is never read: setting it to anything changes nothing. *)
Theorem read_api_key_name (environ : dict str) :
  (forall key, read_api_key environ = inr key <->
               key <> [] /\ dict_get (lit "CLAUDE_API_KEY") environ = Some key) /\
  (dict_get (lit "CLAUDE_API_KEY") environ = None \/
   dict_get (lit "CLAUDE_API_KEY") environ = Some [] ->
   read_api_key environ = inl missing_key_error) /\
  (forall value,
      read_api_key (dict_setitem (lit "ANTHROPIC_API_KEY") value environ)
      = read_api_key environ).
Proof.
  split; [|split].
  - intros key. unfold read_api_key.
    destruct (dict_get (lit "CLAUDE_API_KEY") environ) as [[|c k]|]; split.
    + discriminate.
    + intros [Hne H]. injection H as <-. congruence.
    + intros H. injection H as <-. split; [discriminate|reflexivity].
    + intros [_ H]. injection H as <-. reflexivity.
    + discriminate.
    + intros [_ H]. discriminate H.
  - unfold read_api_key. intros [-> | ->]; reflexivity.
  - intros value. unfold read_api_key.
    rewrite dict_get_setitem_neq; [reflexivity|].
    vm_compute. discriminate.
Qed.

Lemma read_api_key_name_witness :
  dict_get (lit "CLAUDE_API_KEY") [(lit "ANTHROPIC_API_KEY", lit "sk-ant-1")] = None /\
  read_api_key [(lit "ANTHROPIC_API_KEY", lit "sk-ant-1")] = inl missing_key_error.
Proof.
  assert (H : dict_get (lit "CLAUDE_API_KEY") [(lit "ANTHROPIC_API_KEY", lit "sk-ant-1")]
              = None) by reflexivity.
  split; [exact H|].
  exact (proj1 (proj2 (read_api_key_name _)) (or_introl H)).
Defined.

(** X19. Only the normalized word matters: two texts of the input box that
    are not blank and are the same once stripped and put in lower case
    (such as the same word in another case, or with spaces around it)
    make the handler do exactly the same thing, on every history. *)
Theorem press_depends_on_normalized_word (str_lower : str -> str)
  (llm_invoke : str -> exn + str) (requests_get : str -> exn + N)
  (word word' : str) (h : history_t) :
  strip word <> [] -> strip word' <> [] ->
  str_lower (strip word) = str_lower (strip word') ->
  explore_word str_lower llm_invoke requests_get word h =
  explore_word str_lower llm_invoke requests_get word' h.
Proof.
  intros Hne Hne' H. unfold explore_word.
  destruct (strip word) as [|c s]; [congruence|].
  destruct (strip word') as [|c' s']; [congruence|].
  rewrite H. reflexivity.
Qed.

Lemma press_depends_on_normalized_word_witness :
  strip (lit " Happy ") <> [] /\ strip (lit "HAPPY") <> [] /\
  ascii_lower (strip (lit " Happy ")) = ascii_lower (strip (lit "HAPPY")) /\
  explore_word ascii_lower (replies happy_reply) (answers 200) (lit " Happy ") [] =
  explore_word ascii_lower (replies happy_reply) (answers 200) (lit "HAPPY") [].
Proof.
  assert (H1 : strip (lit " Happy ") <> []) by (vm_compute; discriminate).
  assert (H2 : strip (lit "HAPPY") <> []) by (vm_compute; discriminate).
  assert (H3 : ascii_lower (strip (lit " Happy ")) = ascii_lower (strip (lit "HAPPY")))
    by reflexivity.
  split; [exact H1|]. split; [exact H2|]. split; [exact H3|].
  exact (press_depends_on_normalized_word ascii_lower (replies happy_reply)
           (answers 200) _ _ [] H1 H2 H3).
Defined.

Lemma press_touches_one_key_witness :
  let h := [(lit "happy", []); (lit "sad", WordInfo_dict happy_info)] in
  let h' := history (explore_word ascii_lower (replies happy_reply) unreachable
                       (lit " Happy ") h) in
  lit "sad" <> ascii_lower (strip (lit " Happy ")) /\
  In (ascii_lower (strip (lit " Happy "))) (dict_keys h) /\
  dict_get (lit "sad") h' = dict_get (lit "sad") h /\
  dict_keys h' = dict_keys h.
Proof.
  cbv zeta.
  assert (H1 : lit "sad" <> ascii_lower (strip (lit " Happy ")))
    by (vm_compute; discriminate).
  assert (H2 : In (ascii_lower (strip (lit " Happy ")))
                 (dict_keys [(lit "happy", []); (lit "sad", WordInfo_dict happy_info)]))
    by (left; reflexivity).
  split; [exact H1|]. split; [exact H2|].
  pose proof (press_touches_one_key ascii_lower (replies happy_reply) unreachable
                (lit " Happy ")
                [(lit "happy", []); (lit "sad", WordInfo_dict happy_info)]) as T.
  cbv zeta in T. destruct T as [Ta [_ Tc]].
  split; [exact (Ta _ H1)|exact (Tc H2)].
Defined.
